(** * net::Channel (C++/net/channel.h, C++/net/channel.cpp)

    A shallow embedding of the [Channel] class: its constructor, the two
    [send] overloads with their retry loop, [receive] / [receiveText]
    with the fixed-size stack buffer, and [operator<<] on [Bytes]; then the
    older header-only [template <class T> class Channel] of channel.hpp.
    The network (Asio) and the process
    ([std::cerr], [std::exit], [sleep_for]) are the environment: an oracle
    says how each call into Asio ends, and every call the code makes is
    logged as an [event]. *)

From Stdlib Require Import ZArith Lia.
From Stdlib.Strings Require Import String Ascii Byte.
From stdpp Require Import base tactics option list.

Local Open Scope Z_scope.

(** ** channel.h: macros and types *)

Definition CHANNEL_H_DEFAULT_HOST : string := "localhost"%string.
Definition CHANNEL_H_DEFAULT_PORT : Z := 10000.
Definition CHANNEL_H_MAX_BUFFER : Z := 65536.

(** [using byte = unsigned char;  class Bytes : public std::vector<byte>]:
    [byte] is the 256-element type of [Stdlib.Strings.Byte]. *)
Definition Bytes : Type := list byte.

(** [class Channel { ... private: int port; }] *)
Record Channel : Type := mkChannel { Channel_port : Z }.

(** ** The environment *)

(** What the code writes to [std::cerr], one constructor per message. *)
Inductive diagnostic : Type :=
  | DiagPortRange (default : Z)
      (* "Channel(). Port must be in the range 1-65535. Using default <default>." *)
  | DiagAttemptFailed (i attempts : Z) (what : string)
      (* "Channel::send(). Attempt <i> of <attempts> failed. Error: <what>." *)
  | DiagMaxAttempts
      (* "Channel::send(). Maximum attempts reached, exiting..." *)
  | DiagException (what : string).
      (* "Exception: <what>" *)

(** Calls that leave the program, in the order they are made. *)
Inductive event : Type :=
  | EvCerr (d : diagnostic)
  | EvResolve (host : string) (service : Z)   (* resolver.resolve(host, to_string(port)) *)
  | EvConnect                                 (* asio::connect *)
  | EvWrite (payload : Bytes)                 (* asio::write *)
  | EvSleep (delay_ms : Z)                    (* std::this_thread::sleep_for *)
  | EvListen (port_num : Z)                   (* acceptor(io_context, endpoint(v4(), port_num)) *)
  | EvAccept                                  (* acceptor.accept() *)
  | EvReadSome (capacity : Z).                (* socket.read_some(asio::buffer(buffer), error) *)

Definition trace : Type := list event.

(** How a call ends for the caller: it returns, or the process is gone. *)
Inductive completion (A : Type) : Type :=
  | Returns (a : A)
  | Exits (status : Z).
Arguments Returns {A} a.
Arguments Exits {A} status.

(** ** Channel::Channel(const int port) *)

Definition Channel_new (port : Z) : Channel * trace :=
  if (port <? 1) || (port >? 65535)
  then (mkChannel CHANNEL_H_DEFAULT_PORT,
        [EvCerr (DiagPortRange CHANNEL_H_DEFAULT_PORT)])
  else (mkChannel port, []).

(** [Channel(const int port = CHANNEL_H_DEFAULT_PORT)] called without argument. *)
Definition Channel_default : Channel * trace := Channel_new CHANNEL_H_DEFAULT_PORT.

(** ** Channel::send *)

(** [unsigned int] arithmetic (32 bits). *)
Definition UINT_MODULUS : Z := 2 ^ 32.
Definition uint_add (a b : Z) : Z := (a + b) mod UINT_MODULUS.
Definition uint_sub (a b : Z) : Z := (a - b) mod UINT_MODULUS.

(** How one pass through the [try] block of [send] ends: one of the three
    Asio calls throws, or the write completes. *)
Inductive attempt_result : Type :=
  | ResolveThrows (what : string)
  | ConnectThrows (what : string)
  | WriteThrows (what : string)
  | Written.

(** The network seen by a sender: what happens at attempt number [i]. *)
Definition network : Type := Z -> attempt_result.

(** The [try] block: the events of the attempt and the exception caught, if any. *)
Definition send_attempt (message : Bytes) (port : Z) (host : string)
    (r : attempt_result) : trace * option string :=
  match r with
  | ResolveThrows what => ([EvResolve host port], Some what)
  | ConnectThrows what => ([EvResolve host port; EvConnect], Some what)
  | WriteThrows what => ([EvResolve host port; EvConnect; EvWrite message], Some what)
  | Written => ([EvResolve host port; EvConnect; EvWrite message], None)
  end.

(** [for (i = 0U; i < attempts; i++) { try {...; break;} catch {...} }].
    [remaining] counts the iterations left: the counter only changes by
    [i++], so [i < attempts] holds exactly while [remaining] is not zero
    ([send] starts the loop with [remaining = attempts] and [i = 0]). *)
Fixpoint send_loop (message : Bytes) (port : Z) (host : string) (attempts : Z)
    (delay_ms : Z) (net : network) (remaining : nat) (i : Z)
    : trace * completion unit :=
  match remaining with
  | O => ([], Returns tt)
  | S remaining' =>
      match send_attempt message port host (net i) with
      | (tried, None) => (tried, Returns tt)      (* break: attempt successful *)
      | (tried, Some what) =>
          let reported := tried ++ [EvCerr (DiagAttemptFailed i attempts what)] in
          if i =? uint_sub attempts 1
          then (reported ++ [EvCerr DiagMaxAttempts], Exits 1)
          else
            let '(later, c) :=
              send_loop message port host attempts delay_ms net
                remaining' (uint_add i 1) in
            (reported ++ EvSleep delay_ms :: later, c)
      end
  end.

(** [void Channel::send(const Bytes &message, const int port,
    const std::string &host, const unsigned int attempts, delay_ms)] *)
Definition send (this : Channel) (message : Bytes) (port : Z) (host : string)
    (attempts : Z) (delay_ms : Z) (net : network) : trace * completion unit :=
  if (Z.of_nat (length message) =? 0)
  then ([], Returns tt)                           (* nothing to send *)
  else send_loop message port host attempts delay_ms net (Z.to_nat attempts) 0.

(** [void Channel::send(const std::string &message, ...)]: every [char] is
    pushed onto a [Bytes], then the overload above is called. *)
Definition send_text (this : Channel) (message : string) (port : Z)
    (host : string) (attempts : Z) (delay_ms : Z) (net : network)
    : trace * completion unit :=
  let data : Bytes := list_byte_of_string message in
  send this data port host attempts delay_ms net.

(** ** Channel::receive *)

(** [asio::error_code] after [read_some], as far as [receive] tells them apart. *)
Inductive error_code : Type :=
  | ec_success
  | ec_eof                         (* asio::error::eof *)
  | ec_other (what : string).

(** What the listener meets: the acceptor cannot be set up, [accept] fails,
    or a peer connects and the single [read_some] finds [incoming] bytes
    pending and sets [error]. *)
Inductive peer : Type :=
  | ListenThrows (what : string)
  | AcceptThrows (what : string)
  | Incoming (incoming : Bytes) (error : error_code).

(** The locals of [receive] that outlive the [try] block, the indices of
    [buffer] the code itself reads or writes, and the events so far. *)
Record frame : Type := mkFrame {
  buffer : list byte;       (* byte buffer[CHANNEL_H_MAX_BUFFER] *)
  data : Bytes;             (* Bytes data *)
  touched : list Z;         (* subscripts applied to buffer, in order *)
  out : trace
}.

(** A statement ends normally, throws a [std::exception], or subscripts
    [buffer] outside its bounds (undefined behaviour in C++: the model
    stops there and keeps the offending index). *)
Inductive result (A : Type) : Type :=
  | Val (a : A)
  | Thrown (what : string)
  | OutOfBounds (index : Z).
Arguments Val {A} a.
Arguments Thrown {A} what.
Arguments OutOfBounds {A} index.

Definition M (A : Type) : Type := frame -> frame * result A.

#[local] Instance M_ret : MRet M := fun A a s => (s, Val a).

#[local] Instance M_bind : MBind M := fun A B k m s =>
  match m s with
  | (s', Val a) => k a s'
  | (s', Thrown what) => (s', Thrown what)
  | (s', OutOfBounds index) => (s', OutOfBounds index)
  end.

Definition throw {A : Type} (what : string) : M A := fun s => (s, Thrown what).

(** [try { body } catch (std::exception& e) { handler(e.what()) }] *)
Definition try_catch (body : M unit) (handler : string -> M unit) : M unit :=
  fun s =>
    match body s with
    | (s', Thrown what) => handler what s'
    | r => r
    end.

Definition emit (e : event) : M unit :=
  fun s => (mkFrame (buffer s) (data s) (touched s) (out s ++ [e]), Val tt).

Definition in_bounds (i : Z) : bool := (0 <=? i) && (i <? CHANNEL_H_MAX_BUFFER).

(** [buffer[i] = b] *)
Definition buffer_store (i : Z) (b : byte) : M unit :=
  fun s =>
    let touched' := touched s ++ [i] in
    if in_bounds i
    then (mkFrame (<[Z.to_nat i := b]> (buffer s)) (data s) touched' (out s), Val tt)
    else (mkFrame (buffer s) (data s) touched' (out s), OutOfBounds i).

(** [buffer[i]] read *)
Definition buffer_load (i : Z) : M byte :=
  fun s =>
    let s' := mkFrame (buffer s) (data s) (touched s ++ [i]) (out s) in
    if in_bounds i
    then match buffer s !! Z.to_nat i with
         | Some b => (s', Val b)
         | None => (s', OutOfBounds i)
         end
    else (s', OutOfBounds i).

(** [data] read *)
Definition load_data : M Bytes := fun s => (s, Val (data s)).

(** [data.push_back(b)] *)
Definition push_back (b : byte) : M unit :=
  fun s => (mkFrame (buffer s) (data s ++ [b]) (touched s) (out s), Val tt).

(** [socket.read_some(asio::buffer(buffer), error)]: Asio moves at most
    [sizeof buffer] of the pending bytes to the front of [buffer] and
    returns how many it moved. *)
Definition received (incoming : Bytes) : Bytes :=
  take (Z.to_nat CHANNEL_H_MAX_BUFFER) incoming.

Definition read_some (incoming : Bytes) : M Z :=
  fun s =>
    let got := received incoming in
    (mkFrame (got ++ drop (length got) (buffer s)) (data s) (touched s)
             (out s ++ [EvReadSome CHANNEL_H_MAX_BUFFER]),
     Val (Z.of_nat (length got))).

(** [for (i = 0; i <= length; i++) data.push_back(buffer[i]);]
    run for [remaining] more iterations from index [i]; [receive] starts it
    with [length + 1] iterations, those for which [i <= length] holds.
    ([size_t] cannot wrap here: [i] stays below [CHANNEL_H_MAX_BUFFER + 2].) *)
Fixpoint copy_loop (remaining : nat) (i : Z) : M unit :=
  match remaining with
  | O => mret tt
  | S remaining' =>
      b ← buffer_load i;
      push_back b;;
      copy_loop remaining' (i + 1)
  end.

(** The port [receive] listens on; [endpoint] takes an [unsigned short]. *)
Definition listening_port (this : Channel) (port : Z) : Z :=
  if (port >=? 1) && (port <=? 65535) then port else Channel_port this.

Definition port_type_of_int (p : Z) : Z := p mod 65536.

(** The [try] block of [receive].  [return data] at a clean end of file
    leaves the block with [data] as it is, which is also what the
    statement after the block returns. *)
Definition receive_try (this : Channel) (port : Z) (env : peer) : M unit :=
  emit (EvListen (port_type_of_int (listening_port this port)));;
  match env with
  | ListenThrows what => throw what
  | AcceptThrows what => emit EvAccept;; throw what
  | Incoming incoming error =>
      emit EvAccept;;
      length ← read_some incoming;
      buffer_store (CHANNEL_H_MAX_BUFFER - 1) x00;;
      (if length <? CHANNEL_H_MAX_BUFFER
       then buffer_store length x00
       else mret tt);;
      match error with
      | ec_eof => mret tt                      (* connection closed cleanly by peer *)
      | ec_other what => throw what            (* some other error *)
      | ec_success => copy_loop (Z.to_nat (length + 1)) 0
      end
  end.

(** The uninitialised [buffer]: [uninit i] is whatever byte the stack holds
    at position [i] when [receive] is entered. *)
Definition fresh_buffer (uninit : nat -> byte) : list byte :=
  map uninit (seq 0 (Z.to_nat CHANNEL_H_MAX_BUFFER)).

Definition receive_body (this : Channel) (port : Z) (env : peer) : M Bytes :=
  try_catch (receive_try this port env)
            (fun what => emit (EvCerr (DiagException what)));;
  load_data.

(** [Bytes Channel::receive(const int port)]: the object after the call,
    the final frame and what is returned. *)
Definition receive (this : Channel) (port : Z) (env : peer)
    (uninit : nat -> byte) : Channel * frame * result Bytes :=
  let '(s, r) := receive_body this port env (mkFrame (fresh_buffer uninit) [] [] []) in
  (this, s, r).

(** [std::string Channel::receiveText(const int port)]:
    [std::string(data.begin(), data.end())]. *)
Definition receiveText (this : Channel) (port : Z) (env : peer)
    (uninit : nat -> byte) : Channel * frame * result string :=
  let '(this', s, r) := receive this port env uninit in
  (this', s,
   match r with
   | Val data => Val (string_of_list_byte data)
   | Thrown what => Thrown what
   | OutOfBounds index => OutOfBounds index
   end).

Definition returned {A : Type} (x : Channel * frame * result A) : result A := snd x.
Definition final_frame {A : Type} (x : Channel * frame * result A) : frame := snd (fst x).
Definition object_after {A : Type} (x : Channel * frame * result A) : Channel := fst (fst x).

(** [buffer] once [read_some] and the two sentinel assignments are done. *)
Definition stored_buffer (uninit : nat -> byte) (incoming : Bytes) : list byte :=
  let got := received incoming in
  let filled := got ++ drop (length got) (fresh_buffer uninit) in
  let capped := <[Z.to_nat (CHANNEL_H_MAX_BUFFER - 1) := x00]> filled in
  if Z.of_nat (length got) <? CHANNEL_H_MAX_BUFFER
  then <[length got := x00]> capped
  else capped.

(** The frame [receive] has reached when it inspects [error]. *)
Definition frame_at_error_check (this : Channel) (port : Z)
    (uninit : nat -> byte) (incoming : Bytes) : frame :=
  let n := Z.of_nat (length (received incoming)) in
  mkFrame (stored_buffer uninit incoming) []
          (if n <? CHANNEL_H_MAX_BUFFER
           then [CHANNEL_H_MAX_BUFFER - 1; n]
           else [CHANNEL_H_MAX_BUFFER - 1])
          [EvListen (port_type_of_int (listening_port this port));
           EvAccept; EvReadSome CHANNEL_H_MAX_BUFFER].

(** ** Observations on a trace *)

(** Passes through the [try] block of [send]: each starts with one [resolve]. *)
Fixpoint attempts_made (t : trace) : Z :=
  match t with
  | [] => 0
  | EvResolve _ _ :: t' => 1 + attempts_made t'
  | _ :: t' => attempts_made t'
  end.

(** The attempt numbers reported as failed on [std::cerr], in order. *)
Fixpoint failures_reported (t : trace) : list Z :=
  match t with
  | [] => []
  | EvCerr (DiagAttemptFailed i _ _) :: t' => i :: failures_reported t'
  | _ :: t' => failures_reported t'
  end.

Fixpoint diagnostics (t : trace) : list diagnostic :=
  match t with
  | [] => []
  | EvCerr d :: t' => d :: diagnostics t'
  | _ :: t' => diagnostics t'
  end.

Fixpoint listened (t : trace) : list Z :=
  match t with
  | [] => []
  | EvListen p :: t' => p :: listened t'
  | _ :: t' => listened t'
  end.

Fixpoint written (t : trace) : list Bytes :=
  match t with
  | [] => []
  | EvWrite payload :: t' => payload :: written t'
  | _ :: t' => written t'
  end.

Definition fails (r : attempt_result) : Prop :=
  match r with Written => False | _ => True end.

(** ** A sender and a listener on one port

    The scenario [send(message, P)] followed by [receiveText(P)], with the
    header's default host, attempts and delay: the first connection
    succeeds, and the listener's single read finds exactly the payload of
    the sender's single write. *)
Definition round_trip (sender listener : Channel) (message : string) (P : Z)
    (uninit : nat -> byte) : option (Channel * frame * result string) :=
  match send_text sender message P CHANNEL_H_DEFAULT_HOST 10 1000 (fun _ => Written) with
  | (sent, Returns _) =>
      match written sent with
      | [payload] => Some (receiveText listener P (Incoming payload ec_success) uninit)
      | _ => None
      end
  | (_, Exits _) => None
  end.

(** ** Sample inputs *)

Definition hello : Bytes := list_byte_of_string "hello".

(** 65536 bytes, the last one different from the others. *)
Definition full_payload : Bytes :=
  replicate (Z.to_nat (CHANNEL_H_MAX_BUFFER - 1)) "a"%byte ++ ["Z"%byte].

(** Nobody listens on the target port. *)
Definition refused : network := fun _ => ConnectThrows "Connection refused".

(** A stack full of [0xff] bytes. *)
Definition stale : nat -> byte := fun _ => xff.

(** ** operator<<(std::ostream&, const Bytes&)

    An output stream is the sequence of bytes put on it so far.
    [stream << data[i]] with [data[i]] an [unsigned char] puts that one
    character (field width 0, the default).  [data[i]] is the unchecked
    subscript of [std::vector]: outside [0 .. size-1] the behaviour is
    undefined, and the model answers [None]. *)
Fixpoint insert_loop (data : Bytes) (remaining : nat) (i : Z)
    (stream : list byte) : option (list byte) :=
  match remaining with
  | O => Some stream
  | S remaining' =>
      match data !! Z.to_nat i with
      | Some b => insert_loop data remaining' (i + 1) (stream ++ [b])
      | None => None
      end
  end.

(** [for (size_t i = 0; i < data.size(); i++) stream << data[i]; return stream;] *)
Definition operator_shl (stream : list byte) (data : Bytes) : option (list byte) :=
  insert_loop data (length data) 0 stream.

(** ** More observations on a trace *)

(** The pauses taken, in order. *)
Fixpoint sleeps (t : trace) : list Z :=
  match t with
  | [] => []
  | EvSleep d :: t' => d :: sleeps t'
  | _ :: t' => sleeps t'
  end.

(** The host and service every name resolution asked for. *)
Fixpoint resolved (t : trace) : list (string * Z) :=
  match t with
  | [] => []
  | EvResolve host service :: t' => (host, service) :: resolved t'
  | _ :: t' => resolved t'
  end.

Fixpoint accepts (t : trace) : Z :=
  match t with
  | [] => 0
  | EvAccept :: t' => 1 + accepts t'
  | _ :: t' => accepts t'
  end.

Fixpoint reads (t : trace) : Z :=
  match t with
  | [] => 0
  | EvReadSome _ :: t' => 1 + reads t'
  | _ :: t' => reads t'
  end.

(** Attempt [k] is the first one the network lets through. *)
Definition first_success (net : network) (k : Z) : Prop :=
  net k = Written /\ forall j, 0 <= j < k -> fails (net j).

(** ** channel.hpp: the header-only [template <class T> class Channel]

    The older variant of the class, taken at [T = std::string] (the code
    compares [message] with a string literal and calls [c_str()] and
    [length()] on it).  It keeps a [view] of what was sent and received,
    tests for exhaustion after the retry loop, and reads the buffer as a
    C string. *)
Module Template.

Definition DEFAULT_HOST : string := "localhost"%string.
Definition DEFAULT_PORT : Z := 10000.
Definition MAX_BUFFER : Z := 65536.

(** [std::vector<T> view;  int port;] *)
Record Channel : Type := mkChannel { view : list string; port : Z }.

Inductive diagnostic : Type :=
  | DiagPortRange (default : Z)
      (* "Channel(). Port must be in the range 1-65535. Using default <default>." *)
  | DiagSendException (what : string)
      (* "Channel::send(). Exception: <what>" *)
  | DiagAttemptFailed (i attempts : Z)
      (* "Channel::send(). Attempt <i> of <attempts> failed." *)
  | DiagMaxAttempts
      (* "Channel::send(). Maximum attempts reached: exiting." *)
  | DiagException (what : string).
      (* "Exception: <what>" *)

(** A line on [std::cerr], or a call into Asio or the thread library (one
    of the [event]s above other than [EvCerr]). *)
Inductive entry : Type :=
  | Cerr (d : diagnostic)
  | Io (e : event).

Definition log : Type := list entry.

(** [Channel<T>::Channel(const int port)] *)
Definition new (p : Z) : Channel * log :=
  if (p <? 1) || (p >? 65535)
  then (mkChannel [] DEFAULT_PORT, [Cerr (DiagPortRange DEFAULT_PORT)])
  else (mkChannel [] p, []).

(** The retry loop of [send]: the log, the [view] and the counter [i] when
    the loop is left.  The [try] block makes the same three calls as in
    channel.cpp, with [message.c_str()] and [message.length()] as payload,
    and then [view.push_back(message)]. *)
Fixpoint send_loop (message : string) (port : Z) (host : string) (attempts : Z)
    (delay_ms : Z) (net : network) (remaining : nat) (i : Z)
    (view : list string) : log * list string * Z :=
  match remaining with
  | O => ([], view, i)
  | S remaining' =>
      match send_attempt (list_byte_of_string message) port host (net i) with
      | (tried, None) => (map Io tried, view ++ [message], i)        (* break *)
      | (tried, Some what) =>
          let '(later, view', i') :=
            send_loop message port host attempts delay_ms net
              remaining' (uint_add i 1) view in
          (map Io tried
             ++ [Cerr (DiagSendException what);
                 Cerr (DiagAttemptFailed i attempts);
                 Io (EvSleep delay_ms)]
             ++ later,
           view', i')
      end
  end.

(** [void Channel<T>::send(const T &message, const int port,
    const std::string &host, const unsigned int attempts, delay_ms)] *)
Definition send (this : Channel) (message : string) (port : Z) (host : string)
    (attempts : Z) (delay_ms : Z) (net : network)
    : Channel * log * completion unit :=
  if String.eqb message ""
  then (this, [], Returns tt)                     (* nothing to send *)
  else
    let '(ev, view', i) :=
      send_loop message port host attempts delay_ms net
        (Z.to_nat attempts) 0 (view this) in
    if i =? attempts
    then (mkChannel view' (Template.port this), ev ++ [Cerr DiagMaxAttempts], Exits 1)
    else (mkChannel view' (Template.port this), ev, Returns tt).

(** [message = data] with [data] a [char] array: the characters before the
    first zero byte.  [None] when the array holds no zero byte, where the
    scan would leave the array. *)
Fixpoint c_string (data : list byte) : option (list byte) :=
  match data with
  | [] => None
  | b :: rest =>
      if Byte.eqb b x00 then Some [] else cons b <$> c_string rest
  end.

(** What [receive] hands to its caller: a message, the value of
    [return 0;] (a [T] made from the literal 0: for [std::string], from a
    null pointer), or nothing because reading [data] as a C string left
    the array. *)
Inductive handed : Type :=
  | Message (message : string)
  | FromZero
  | ReadPastEnd.

(** [T Channel<T>::receive()] *)
Definition receive (this : Channel) (env : peer) (uninit : nat -> byte)
    : Channel * log * handed :=
  let listen := Io (EvListen (port_type_of_int (Template.port this))) in
  match env with
  | ListenThrows what =>
      (this, [listen; Cerr (DiagException what)], Message "")
  | AcceptThrows what =>
      (this, [listen; Io EvAccept; Cerr (DiagException what)], Message "")
  | Incoming incoming error =>
      let got := take (Z.to_nat MAX_BUFFER) incoming in
      let length := Z.of_nat (length got) in
      let data0 := got ++ drop (Z.to_nat length) (fresh_buffer uninit) in
      let data1 := <[Z.to_nat (MAX_BUFFER - 1) := x00]> data0 in
      let data2 :=
        if length <? MAX_BUFFER then <[Z.to_nat length := x00]> data1 else data1 in
      let calls := [listen; Io EvAccept; Io (EvReadSome MAX_BUFFER)] in
      match c_string data2 with
      | None => (this, calls, ReadPastEnd)
      | Some text =>
          let message := string_of_list_byte text in
          match error with
          | ec_eof => (this, calls, FromZero)
          | ec_other what =>
              (this, calls ++ [Cerr (DiagException what)], Message message)
          | ec_success =>
              (mkChannel (view this ++ [message]) (Template.port this),
               calls, Message message)
          end
      end
  end.

(** The calls in a log, and the lines on [std::cerr]. *)
Fixpoint calls (l : log) : trace :=
  match l with
  | [] => []
  | Io e :: l' => e :: calls l'
  | Cerr _ :: l' => calls l'
  end.

Fixpoint failed_attempts (l : log) : list Z :=
  match l with
  | [] => []
  | Cerr (DiagAttemptFailed i _) :: l' => i :: failed_attempts l'
  | _ :: l' => failed_attempts l'
  end.

End Template.

(** The bytes of [l] before its first zero byte; all of [l] if it has none. *)
Fixpoint until_zero (l : list byte) : list byte :=
  match l with
  | [] => []
  | b :: rest => if Byte.eqb b x00 then [] else b :: until_zero rest
  end.

(** A sender and a listener of channel.hpp, with the header's default
    host, attempts and delay: the first connection succeeds and the
    listener's single read finds the payload of the sender's single write.
    The result is the two objects afterwards and what the listener got. *)
Definition template_round_trip (sender listener : Template.Channel)
    (message : string) (P : Z) (uninit : nat -> byte)
    : option (Template.Channel * Template.Channel * Template.handed) :=
  match Template.send sender message P Template.DEFAULT_HOST 10 1000
          (fun _ => Written) with
  | (sender', sent, Returns _) =>
      match written (Template.calls sent) with
      | [payload] =>
          let '(listener', _, got) :=
            Template.receive listener (Incoming payload ec_success) uninit in
          Some (sender', listener', got)
      | _ => None
      end
  | (_, _, Exits _) => None
  end.

(** * Properties *)

(** ** Traces *)

Lemma attempts_made_app (t1 t2 : trace) :
  attempts_made (t1 ++ t2) = attempts_made t1 + attempts_made t2.
Proof.
  induction t1 as [|e t1 IH]; [reflexivity|].
  destruct e; cbn [app attempts_made]; lia.
Qed.

Lemma failures_reported_app (t1 t2 : trace) :
  failures_reported (t1 ++ t2) = failures_reported t1 ++ failures_reported t2.
Proof.
  induction t1 as [|e t1 IH]; [reflexivity|].
  destruct e as [d| | | | | | |]; cbn [app failures_reported]; try assumption.
  destruct d; cbn [app]; congruence.
Qed.

Lemma diagnostics_app (t1 t2 : trace) :
  diagnostics (t1 ++ t2) = diagnostics t1 ++ diagnostics t2.
Proof.
  induction t1 as [|e t1 IH]; [reflexivity|].
  destruct e; cbn [app diagnostics]; congruence.
Qed.

(** ** The unsigned counter of the retry loop *)

Lemma uint_sub_small (a b : Z) :
  0 <= a - b < UINT_MODULUS -> uint_sub a b = a - b.
Proof. intros H. unfold uint_sub. apply Z.mod_small. exact H. Qed.

Lemma uint_add_small (a b : Z) :
  0 <= a + b < UINT_MODULUS -> uint_add a b = a + b.
Proof. intros H. unfold uint_add. apply Z.mod_small. exact H. Qed.

(** ** The [try] block of [send] *)

Lemma send_attempt_fails (message : Bytes) (port : Z) (host : string)
    (r : attempt_result) :
  fails r ->
  exists tried what,
    send_attempt message port host r = (tried, Some what)
    /\ attempts_made tried = 1
    /\ failures_reported tried = []
    /\ diagnostics tried = [].
Proof.
  destruct r as [w|w|w|]; cbn [fails]; intros Hf; [..|contradiction];
    eexists _, w; repeat split; reflexivity.
Qed.

Section RetryLoop.
Variables (message : Bytes) (port : Z) (host : string) (attempts delay_ms : Z).
Variable net : network.
Hypothesis attempts_uint : 0 <= attempts < UINT_MODULUS.

(** With every remaining attempt failing, the loop entered at [i] with
    [remaining] iterations left runs all of them and exits. *)
Lemma send_loop_exhausted (remaining : nat) :
  forall i : Z,
    0 <= i ->
    i + Z.of_nat (S remaining) = attempts ->
    (forall j, i <= j < attempts -> fails (net j)) ->
    exists ev,
      send_loop message port host attempts delay_ms net (S remaining) i
        = (ev, Exits 1)
      /\ attempts_made ev = Z.of_nat (S remaining)
      /\ failures_reported ev = seqZ i (Z.of_nat (S remaining))
      /\ last (diagnostics ev) = Some DiagMaxAttempts.
Proof.
  induction remaining as [|r IH]; intros i Hi Hsum Hfail.
  - destruct (send_attempt_fails message port host (net i)) as
      (tried & what & Htry & Hmade & Hrep & Hdiag); [apply Hfail; lia|].
    cbn [send_loop]. rewrite Htry.
    rewrite uint_sub_small by lia.
    replace (i =? attempts - 1) with true by (symmetry; apply Z.eqb_eq; lia).
    eexists. split; [reflexivity|].
    rewrite !attempts_made_app, !failures_reported_app, !diagnostics_app.
    rewrite Hmade, Hrep, Hdiag. cbn.
    repeat split.
  - destruct (send_attempt_fails message port host (net i)) as
      (tried & what & Htry & Hmade & Hrep & Hdiag); [apply Hfail; lia|].
    destruct (IH (i + 1)) as (later & Hlater & Hm & Hr & Hd);
      [lia|lia|intros j Hj; apply Hfail; lia|].
    remember (S r) as r' eqn:Er'.
    cbn [send_loop]. rewrite Htry.
    rewrite uint_sub_small by lia.
    replace (i =? attempts - 1) with false by (symmetry; apply Z.eqb_neq; lia).
    rewrite uint_add_small by lia.
    rewrite Hlater.
    eexists. split; [reflexivity|].
    rewrite !attempts_made_app, !failures_reported_app, !diagnostics_app.
    rewrite Hmade, Hrep, Hdiag.
    cbn [attempts_made failures_reported diagnostics app].
    rewrite Hm, Hr.
    split; [lia|]. split.
    + rewrite (seqZ_cons i (Z.of_nat (S r'))) by lia.
      f_equal. f_equal; lia.
    + destruct (diagnostics later) as [|d l]; [discriminate Hd|].
      exact Hd.
Qed.
End RetryLoop.

(** ** The stack buffer *)

Lemma capacity_nat : Z.of_nat (Z.to_nat CHANNEL_H_MAX_BUFFER) = CHANNEL_H_MAX_BUFFER.
Proof. apply Z2Nat.id. unfold CHANNEL_H_MAX_BUFFER. lia. Qed.

Lemma length_fresh_buffer (uninit : nat -> byte) :
  length (fresh_buffer uninit) = Z.to_nat CHANNEL_H_MAX_BUFFER.
Proof. unfold fresh_buffer. rewrite length_map, length_seq. reflexivity. Qed.

Lemma length_received (incoming : Bytes) :
  Z.of_nat (length (received incoming))
  = Z.min CHANNEL_H_MAX_BUFFER (Z.of_nat (length incoming)).
Proof.
  unfold received. rewrite length_take.
  pose proof capacity_nat. lia.
Qed.

Lemma in_bounds_spec (i : Z) :
  in_bounds i = true <-> 0 <= i < CHANNEL_H_MAX_BUFFER.
Proof.
  unfold in_bounds. rewrite andb_true_iff, Z.leb_le, Z.ltb_lt. reflexivity.
Qed.

Lemma buffer_store_inside (i : Z) (b : byte) (s : frame) :
  0 <= i < CHANNEL_H_MAX_BUFFER ->
  buffer_store i b s
  = (mkFrame (<[Z.to_nat i := b]> (buffer s)) (data s) (touched s ++ [i]) (out s),
     Val tt).
Proof.
  intros Hi. unfold buffer_store.
  rewrite (proj2 (in_bounds_spec i) Hi). reflexivity.
Qed.

Lemma buffer_load_inside (i : Z) (b : byte) (s : frame) :
  0 <= i < CHANNEL_H_MAX_BUFFER ->
  buffer s !! Z.to_nat i = Some b ->
  buffer_load i s
  = (mkFrame (buffer s) (data s) (touched s ++ [i]) (out s), Val b).
Proof.
  intros Hi Hb. unfold buffer_load.
  rewrite (proj2 (in_bounds_spec i) Hi), Hb. reflexivity.
Qed.

Lemma buffer_load_outside (i : Z) (s : frame) :
  CHANNEL_H_MAX_BUFFER <= i ->
  buffer_load i s
  = (mkFrame (buffer s) (data s) (touched s ++ [i]) (out s), OutOfBounds i).
Proof.
  intros Hi. unfold buffer_load.
  destruct (in_bounds i) eqn:E; [|reflexivity].
  apply in_bounds_spec in E. lia.
Qed.

(** ** The copy loop *)

(** Unfolding one iteration. *)
Lemma copy_loop_step (remaining : nat) (i : Z) (b : byte) (s : frame) :
  0 <= i < CHANNEL_H_MAX_BUFFER ->
  buffer s !! Z.to_nat i = Some b ->
  copy_loop (S remaining) i s
  = copy_loop remaining (i + 1)
      (mkFrame (buffer s) (data s ++ [b]) (touched s ++ [i]) (out s)).
Proof.
  intros Hi Hb. cbn [copy_loop]. unfold mbind, M_bind at 1.
  rewrite (buffer_load_inside i b s Hi Hb).
  unfold M_bind, push_back. reflexivity.
Qed.

(** While the index stays inside the array the loop copies a slice of it. *)
Lemma copy_loop_inside (remaining : nat) :
  forall (i : Z) (s : frame),
    0 <= i ->
    i + Z.of_nat remaining <= CHANNEL_H_MAX_BUFFER ->
    length (buffer s) = Z.to_nat CHANNEL_H_MAX_BUFFER ->
    copy_loop remaining i s
    = (mkFrame (buffer s)
               (data s ++ take remaining (drop (Z.to_nat i) (buffer s)))
               (touched s ++ seqZ i (Z.of_nat remaining))
               (out s),
       Val tt).
Proof.
  induction remaining as [|k IH]; intros i s Hi Hk Hlen.
  - cbn [copy_loop take]. unfold mret, M_ret.
    rewrite !app_nil_r. destruct s; reflexivity.
  - assert (is_Some (buffer s !! Z.to_nat i)) as [b Hb]
      by (apply lookup_lt_is_Some_2; lia).
    rewrite (copy_loop_step k i b s) by (first [lia | exact Hb]).
    rewrite IH by (cbn [buffer]; first [lia | exact Hlen]).
    cbn [buffer data touched out].
    rewrite (drop_S _ _ _ Hb). cbn [take].
    replace (Z.to_nat (i + 1)) with (S (Z.to_nat i)) by lia.
    rewrite (seqZ_cons i (Z.of_nat (S k))) by lia.
    replace (Z.pred (Z.of_nat (S k))) with (Z.of_nat k) by lia.
    replace (Z.succ i) with (i + 1) by lia.
    rewrite <- !app_assoc. reflexivity.
Qed.

(** One iteration more than the array has room for: everything from [i] to
    the end of the array is copied, then [buffer[CHANNEL_H_MAX_BUFFER]] is read. *)
Lemma copy_loop_overrun (room : nat) :
  forall (i : Z) (s : frame),
    0 <= i ->
    i + Z.of_nat room = CHANNEL_H_MAX_BUFFER ->
    length (buffer s) = Z.to_nat CHANNEL_H_MAX_BUFFER ->
    copy_loop (S room) i s
    = (mkFrame (buffer s)
               (data s ++ drop (Z.to_nat i) (buffer s))
               (touched s ++ seqZ i (Z.of_nat room) ++ [CHANNEL_H_MAX_BUFFER])
               (out s),
       OutOfBounds CHANNEL_H_MAX_BUFFER).
Proof.
  induction room as [|k IH]; intros i s Hi Hk Hlen.
  - cbn [copy_loop]. unfold mbind, M_bind.
    rewrite buffer_load_outside by lia.
    rewrite drop_ge by lia. rewrite app_nil_r.
    replace i with CHANNEL_H_MAX_BUFFER by lia. reflexivity.
  - assert (is_Some (buffer s !! Z.to_nat i)) as [b Hb]
      by (apply lookup_lt_is_Some_2; lia).
    rewrite (copy_loop_step (S k) i b s) by (first [lia | exact Hb]).
    rewrite IH by (cbn [buffer]; first [lia | exact Hlen]).
    cbn [buffer data touched out].
    rewrite (drop_S _ _ _ Hb).
    replace (Z.to_nat (i + 1)) with (S (Z.to_nat i)) by lia.
    rewrite (seqZ_cons i (Z.of_nat (S k))) by lia.
    replace (Z.pred (Z.of_nat (S k))) with (Z.of_nat k) by lia.
    replace (Z.succ i) with (i + 1) by lia.
    rewrite <- !app_assoc. reflexivity.
Qed.

(** ** [receive] up to the test of [error] *)

Ltac frame_fields :=
  lazy beta iota zeta delta [buffer data touched out]; rewrite ?app_nil_l.

Ltac run_frame :=
  unfold mbind, M_bind, mret, M_ret, emit, read_some, throw, load_data;
  frame_fields.

Lemma length_stored_buffer (uninit : nat -> byte) (incoming : Bytes) :
  length (stored_buffer uninit incoming) = Z.to_nat CHANNEL_H_MAX_BUFFER.
Proof.
  pose proof (length_received incoming) as Hn.
  pose proof (length_fresh_buffer uninit) as Hf.
  unfold stored_buffer.
  destruct (_ <? _); rewrite ?length_insert, length_app, length_drop; lia.
Qed.

Lemma receive_try_incoming (this : Channel) (port : Z) (uninit : nat -> byte)
    (incoming : Bytes) (error : error_code) :
  receive_try this port (Incoming incoming error)
              (mkFrame (fresh_buffer uninit) [] [] [])
  = match error with
    | ec_eof => mret tt
    | ec_other what => throw what
    | ec_success =>
        copy_loop (Z.to_nat (Z.of_nat (length (received incoming)) + 1)) 0
    end (frame_at_error_check this port uninit incoming).
Proof.
  pose proof (length_received incoming) as Hn.
  unfold receive_try, frame_at_error_check, stored_buffer.
  run_frame.
  rewrite buffer_store_inside by (unfold CHANNEL_H_MAX_BUFFER; lia).
  frame_fields.
  destruct (Z.of_nat (length (received incoming)) <? CHANNEL_H_MAX_BUFFER) eqn:E.
  - apply Z.ltb_lt in E.
    rewrite buffer_store_inside by lia.
    frame_fields.
    rewrite Nat2Z.id. reflexivity.
  - reflexivity.
Qed.

(** ** [receive] after a successful read *)

(** Fewer bytes than the buffer holds: the bytes read, then the sentinel. *)
Lemma receive_below_capacity (this : Channel) (port : Z) (uninit : nat -> byte)
    (incoming : Bytes) :
  Z.of_nat (length incoming) < CHANNEL_H_MAX_BUFFER ->
  receive this port (Incoming incoming ec_success) uninit
  = (this,
     mkFrame (stored_buffer uninit incoming)
             (incoming ++ [x00])
             ([CHANNEL_H_MAX_BUFFER - 1; Z.of_nat (length incoming)]
                ++ seqZ 0 (Z.of_nat (length incoming) + 1))
             [EvListen (port_type_of_int (listening_port this port));
              EvAccept; EvReadSome CHANNEL_H_MAX_BUFFER],
     Val (incoming ++ [x00])).
Proof.
  intros Hlt.
  pose proof capacity_nat as Hcap.
  assert (received incoming = incoming) as Hgot
    by (unfold received; apply take_ge; lia).
  unfold receive, receive_body, try_catch.
  unfold mbind, M_bind at 1.
  rewrite receive_try_incoming, Hgot.
  rewrite copy_loop_inside;
    [ | lia | lia | unfold frame_at_error_check; frame_fields; apply length_stored_buffer ].
  unfold frame_at_error_check. rewrite Hgot.
  replace (Z.of_nat (length incoming) <? CHANNEL_H_MAX_BUFFER) with true
    by (symmetry; apply Z.ltb_lt; lia).
  frame_fields. unfold load_data. frame_fields.
  replace (Z.to_nat 0) with 0%nat by reflexivity. rewrite drop_0.
  replace (Z.to_nat (Z.of_nat (length incoming) + 1)) with (S (length incoming)) by lia.
  replace (Z.of_nat (S (length incoming))) with (Z.of_nat (length incoming) + 1) by lia.
  assert (take (S (length incoming)) (stored_buffer uninit incoming)
          = incoming ++ [x00]) as ->; [|reflexivity].
  unfold stored_buffer. rewrite Hgot.
  replace (Z.of_nat (length incoming) <? CHANNEL_H_MAX_BUFFER) with true
    by (symmetry; apply Z.ltb_lt; lia).
  pose proof (length_fresh_buffer uninit) as Hf.
  erewrite take_S_r.
  - rewrite !take_insert_ge by lia. rewrite take_app_length. reflexivity.
  - apply list_lookup_insert_eq.
    rewrite length_insert, length_app, length_drop. lia.
Qed.

(** As many bytes as the buffer holds (or more pending): the first 65535
    of them and the sentinel are copied, and the next iteration reads
    [buffer[CHANNEL_H_MAX_BUFFER]]. *)
Lemma receive_at_capacity (this : Channel) (port : Z) (uninit : nat -> byte)
    (incoming : Bytes) :
  CHANNEL_H_MAX_BUFFER <= Z.of_nat (length incoming) ->
  receive this port (Incoming incoming ec_success) uninit
  = (this,
     mkFrame (take (Z.to_nat (CHANNEL_H_MAX_BUFFER - 1)) incoming ++ [x00])
             (take (Z.to_nat (CHANNEL_H_MAX_BUFFER - 1)) incoming ++ [x00])
             ([CHANNEL_H_MAX_BUFFER - 1]
                ++ seqZ 0 CHANNEL_H_MAX_BUFFER ++ [CHANNEL_H_MAX_BUFFER])
             [EvListen (port_type_of_int (listening_port this port));
              EvAccept; EvReadSome CHANNEL_H_MAX_BUFFER],
     OutOfBounds CHANNEL_H_MAX_BUFFER).
Proof.
  intros Hge.
  pose proof capacity_nat as Hcap.
  pose proof (length_received incoming) as Hn.
  pose proof (length_fresh_buffer uninit) as Hf.
  assert (Z.of_nat (length (received incoming)) = CHANNEL_H_MAX_BUFFER) as Hfull by lia.
  unfold receive, receive_body, try_catch.
  unfold mbind, M_bind at 1.
  rewrite receive_try_incoming, Hfull.
  replace (Z.to_nat (CHANNEL_H_MAX_BUFFER + 1))
    with (S (Z.to_nat CHANNEL_H_MAX_BUFFER)) by (unfold CHANNEL_H_MAX_BUFFER; lia).
  rewrite copy_loop_overrun;
    [ | lia | lia | unfold frame_at_error_check; frame_fields; apply length_stored_buffer ].
  unfold frame_at_error_check. rewrite Hfull, Hcap.
  replace (CHANNEL_H_MAX_BUFFER <? CHANNEL_H_MAX_BUFFER) with false
    by (symmetry; apply Z.ltb_ge; lia).
  frame_fields.
  replace (Z.to_nat 0) with 0%nat by reflexivity. rewrite drop_0.
  assert (stored_buffer uninit incoming
          = take (Z.to_nat (CHANNEL_H_MAX_BUFFER - 1)) incoming ++ [x00]) as ->;
    [|reflexivity].
  unfold stored_buffer. rewrite Hfull.
  replace (CHANNEL_H_MAX_BUFFER <? CHANNEL_H_MAX_BUFFER) with false
    by (symmetry; apply Z.ltb_ge; lia).
  rewrite drop_ge by lia. rewrite app_nil_r.
  rewrite insert_take_drop by (unfold CHANNEL_H_MAX_BUFFER in *; lia).
  rewrite drop_ge by (unfold CHANNEL_H_MAX_BUFFER in *; lia).
  unfold received. rewrite take_take.
  replace (Z.to_nat (CHANNEL_H_MAX_BUFFER - 1) `min` Z.to_nat CHANNEL_H_MAX_BUFFER)%nat
    with (Z.to_nat (CHANNEL_H_MAX_BUFFER - 1)) by (unfold CHANNEL_H_MAX_BUFFER; lia).
  reflexivity.
Qed.

(** ** [receive] when nothing is copied *)

Lemma receive_eof (this : Channel) (port : Z) (uninit : nat -> byte)
    (incoming : Bytes) :
  receive this port (Incoming incoming ec_eof) uninit
  = (this, frame_at_error_check this port uninit incoming, Val []).
Proof.
  unfold receive, receive_body, try_catch.
  unfold mbind, M_bind at 1.
  rewrite receive_try_incoming.
  unfold frame_at_error_check. run_frame. reflexivity.
Qed.

Lemma receive_other_error (this : Channel) (port : Z) (uninit : nat -> byte)
    (incoming : Bytes) (what : string) :
  receive this port (Incoming incoming (ec_other what)) uninit
  = (this,
     let s := frame_at_error_check this port uninit incoming in
     mkFrame (buffer s) [] (touched s) (out s ++ [EvCerr (DiagException what)]),
     Val []).
Proof.
  unfold receive, receive_body, try_catch.
  unfold mbind, M_bind at 1.
  rewrite receive_try_incoming.
  unfold frame_at_error_check. run_frame. reflexivity.
Qed.

Lemma receive_listen_throws (this : Channel) (port : Z) (uninit : nat -> byte)
    (what : string) :
  receive this port (ListenThrows what) uninit
  = (this,
     mkFrame (fresh_buffer uninit) [] []
             [EvListen (port_type_of_int (listening_port this port));
              EvCerr (DiagException what)],
     Val []).
Proof.
  unfold receive, receive_body, try_catch, receive_try. run_frame. reflexivity.
Qed.

Lemma receive_accept_throws (this : Channel) (port : Z) (uninit : nat -> byte)
    (what : string) :
  receive this port (AcceptThrows what) uninit
  = (this,
     mkFrame (fresh_buffer uninit) [] []
             [EvListen (port_type_of_int (listening_port this port));
              EvAccept; EvCerr (DiagException what)],
     Val []).
Proof.
  unfold receive, receive_body, try_catch, receive_try. run_frame. reflexivity.
Qed.

(** Whatever the peer does, [receive] sets up exactly one listener, hands
    the object back as it was, and returns to its caller or overruns. *)
Lemma receive_listens_once (this : Channel) (port : Z) (env : peer)
    (uninit : nat -> byte) :
  listened (out (final_frame (receive this port env uninit)))
    = [port_type_of_int (listening_port this port)]
  /\ object_after (receive this port env uninit) = this.
Proof.
  destruct env as [what|what|incoming [| |what]].
  - rewrite receive_listen_throws. split; reflexivity.
  - rewrite receive_accept_throws. split; reflexivity.
  - pose proof capacity_nat.
    destruct (Z_lt_ge_dec (Z.of_nat (length incoming)) CHANNEL_H_MAX_BUFFER).
    + rewrite receive_below_capacity by lia. split; reflexivity.
    + rewrite receive_at_capacity by lia. split; reflexivity.
  - rewrite receive_eof. split; reflexivity.
  - rewrite receive_other_error. split; reflexivity.
Qed.

Lemma stored_buffer_sentinel (uninit : nat -> byte) (incoming : Bytes) :
  Z.of_nat (length incoming) < CHANNEL_H_MAX_BUFFER ->
  stored_buffer uninit incoming !! length incoming = Some x00.
Proof.
  intros Hlt. pose proof capacity_nat as Hcap.
  pose proof (length_fresh_buffer uninit) as Hf.
  unfold stored_buffer.
  replace (received incoming) with incoming
    by (unfold received; symmetry; apply take_ge; lia).
  replace (Z.of_nat (length incoming) <? CHANNEL_H_MAX_BUFFER) with true
    by (symmetry; apply Z.ltb_lt; lia).
  apply list_lookup_insert_eq.
  rewrite length_insert, length_app, length_drop. lia.
Qed.

(** ** The constructor's invariant *)

Lemma Channel_new_port_valid (port : Z) :
  1 <= Channel_port (fst (Channel_new port)) <= 65535.
Proof.
  unfold Channel_new.
  destruct (port <? 1) eqn:E1; destruct (port >? 65535) eqn:E2;
    cbn [orb fst Channel_port]; unfold CHANNEL_H_DEFAULT_PORT; lia.
Qed.

(** * The constructor *)

(** C6. A port outside 1..65535 does not make construction fail: the
    object gets the default port, one diagnostic is written, and the port
    is the one of a [Channel] constructed without argument.  A port inside
    1..65535 is stored as given, and nothing is written. *)
Theorem Channel_new_port_fallback (port : Z) :
  ((port < 1 \/ 65535 < port) ->
     Channel_new port
       = (mkChannel CHANNEL_H_DEFAULT_PORT,
          [EvCerr (DiagPortRange CHANNEL_H_DEFAULT_PORT)])
     /\ Channel_port (fst (Channel_new port)) = Channel_port (fst Channel_default))
  /\ (1 <= port <= 65535 -> Channel_new port = (mkChannel port, [])).
Proof.
  unfold Channel_new. split.
  - intros Hout.
    replace ((port <? 1) || (port >? 65535)) with true; [split; reflexivity|].
    symmetry. apply orb_true_iff. rewrite Z.ltb_lt, Z.gtb_ltb, Z.ltb_lt. lia.
  - intros Hin.
    replace ((port <? 1) || (port >? 65535)) with false; [reflexivity|].
    symmetry. apply orb_false_iff. rewrite Z.ltb_ge, Z.gtb_ltb, Z.ltb_ge. lia.
Qed.

Lemma Channel_new_port_fallback_witness :
  Channel_port (fst (Channel_new 0)) = Channel_port (fst Channel_default)
  /\ Channel_port (fst (Channel_new 70000)) = Channel_port (fst Channel_default)
  /\ Channel_new 8080 = (mkChannel 8080, []).
Proof.
  split; [|split].
  - apply (proj1 (Channel_new_port_fallback 0)). left. lia.
  - apply (proj1 (Channel_new_port_fallback 70000)). right. lia.
  - apply (proj2 (Channel_new_port_fallback 8080)). lia.
Defined.

(** * [send] *)

(** C7. With an empty message, [send] (either overload) returns at once:
    no event at all, so no connection attempt and no diagnostic, and the
    process goes on, whatever the port, host, attempts, delay and network. *)
Theorem send_empty_is_noop (this : Channel) (port : Z) (host : string)
    (attempts delay_ms : Z) (net : network) :
  send this [] port host attempts delay_ms net = ([], Returns tt)
  /\ send_text this "" port host attempts delay_ms net = ([], Returns tt)
  /\ attempts_made (fst (send this [] port host attempts delay_ms net)) = 0.
Proof. repeat split. Qed.

(** C10. With [attempts = 0] and a non-empty message the body of the
    retry loop never runs: [send] returns normally, without any connection
    attempt and without ending the process. *)
Theorem send_zero_attempts_returns (this : Channel) (message : Bytes)
    (port : Z) (host : string) (delay_ms : Z) (net : network) :
  message <> [] ->
  send this message port host 0 delay_ms net = ([], Returns tt)
  /\ attempts_made (fst (send this message port host 0 delay_ms net)) = 0.
Proof.
  intros Hne. unfold send.
  destruct message as [|b message]; [contradiction|].
  split; reflexivity.
Qed.

Lemma send_zero_attempts_returns_witness :
  send (mkChannel 10000) hello 8080 "localhost" 0 1000 refused = ([], Returns tt)
  /\ attempts_made
       (fst (send (mkChannel 10000) hello 8080 "localhost" 0 1000 refused)) = 0.
Proof.
  apply (send_zero_attempts_returns (mkChannel 10000) hello 8080
           "localhost" 1000 refused).
  discriminate.
Defined.

(** C3. A non-empty message, [attempts >= 1], and every attempt ending in
    an exception: [send] goes through the [try] block exactly [attempts]
    times, reports the failure of each attempt 0, 1, ..., [attempts - 1],
    reports that the maximum is reached, and ends the process with a
    non-zero status instead of returning. *)
Theorem send_exhaustion_exits (this : Channel) (message : Bytes) (port : Z)
    (host : string) (attempts delay_ms : Z) (net : network) :
  message <> [] ->
  1 <= attempts < UINT_MODULUS ->
  (forall i, 0 <= i < attempts -> fails (net i)) ->
  let r := send this message port host attempts delay_ms net in
  (exists status, snd r = Exits status /\ status <> 0)
  /\ attempts_made (fst r) = attempts
  /\ failures_reported (fst r) = seqZ 0 attempts
  /\ last (diagnostics (fst r)) = Some DiagMaxAttempts.
Proof.
  intros Hne Hatt Hfail r. subst r. unfold send.
  destruct message as [|b message]; [contradiction|].
  replace (Z.of_nat (length (b :: message)) =? 0) with false
    by (symmetry; apply Z.eqb_neq; cbn [length]; lia).
  destruct (Z.to_nat attempts) as [|remaining] eqn:Er; [lia|].
  destruct (send_loop_exhausted (b :: message) port host attempts delay_ms net
              ltac:(lia) remaining 0) as (ev & Hrun & Hmade & Hrep & Hlast);
    [lia|lia|exact Hfail|].
  rewrite Hrun. cbn [fst snd].
  split; [exists 1; split; [reflexivity|lia]|].
  split; [lia|].
  split; [|exact Hlast].
  rewrite Hrep. f_equal. lia.
Qed.

Lemma send_exhaustion_exits_witness :
  let r := send (mkChannel 10000) hello 8080 "localhost" 3 1000 refused in
  (exists status, snd r = Exits status /\ status <> 0)
  /\ attempts_made (fst r) = 3
  /\ failures_reported (fst r) = seqZ 0 3
  /\ last (diagnostics (fst r)) = Some DiagMaxAttempts.
Proof.
  apply (send_exhaustion_exits (mkChannel 10000) hello 8080 "localhost" 3 1000 refused).
  - discriminate.
  - unfold UINT_MODULUS. lia.
  - intros i _. exact I.
Defined.

(** * [receive] *)

(** C8. [receive(port)] listens on [port] when [port] is in 1..65535 and
    on the port stored in the object otherwise, whatever the peer does
    afterwards; the object itself is handed back unchanged.  The object
    is any [Channel] the constructor can build. *)
Theorem receive_listening_port (configured port : Z) (env : peer)
    (uninit : nat -> byte) :
  let this := fst (Channel_new configured) in
  let r := receive this port env uninit in
  (1 <= port <= 65535 -> listened (out (final_frame r)) = [port])
  /\ (~ 1 <= port <= 65535 ->
      listened (out (final_frame r)) = [Channel_port this])
  /\ object_after r = this.
Proof.
  intros this r. subst r.
  destruct (receive_listens_once this port env uninit) as [Hl Ho].
  rewrite Hl, Ho. unfold listening_port, port_type_of_int.
  pose proof (Channel_new_port_valid configured) as Hvalid. fold this in Hvalid.
  split; [|split; [|reflexivity]].
  - intros Hin.
    replace ((port >=? 1) && (port <=? 65535)) with true
      by (symmetry; apply andb_true_iff; rewrite Z.geb_leb, !Z.leb_le; lia).
    rewrite Z.mod_small by lia. reflexivity.
  - intros Hout.
    replace ((port >=? 1) && (port <=? 65535)) with false
      by (symmetry; apply andb_false_iff; rewrite Z.geb_leb, !Z.leb_gt; lia).
    rewrite Z.mod_small by lia. reflexivity.
Qed.

Lemma receive_listening_port_witness :
  listened (out (final_frame
     (receive (fst (Channel_new 7000)) 8080 (ListenThrows "Address in use") stale)))
    = [8080]
  /\ listened (out (final_frame
       (receive (fst (Channel_new 7000)) 0 (ListenThrows "Address in use") stale)))
    = [Channel_port (fst (Channel_new 7000))].
Proof.
  split.
  - apply (proj1 (receive_listening_port 7000 8080
                    (ListenThrows "Address in use") stale)). lia.
  - apply (proj1 (proj2 (receive_listening_port 7000 0
                           (ListenThrows "Address in use") stale))). lia.
Defined.

(** C5. A clean end of file and any other error of the read both make
    [receive] return the empty byte sequence to its caller: nothing is
    thrown out of [receive].  The error is reported on [std::cerr], the end
    of file is not; the returned values are equal. *)
Theorem receive_eof_and_error_return_empty (this : Channel) (port : Z)
    (uninit : nat -> byte) (pending pending' : Bytes) (what : string) :
  let closed := receive this port (Incoming pending ec_eof) uninit in
  let failed := receive this port (Incoming pending' (ec_other what)) uninit in
  returned closed = Val []
  /\ diagnostics (out (final_frame closed)) = []
  /\ returned failed = Val []
  /\ diagnostics (out (final_frame failed)) = [DiagException what]
  /\ returned closed = returned failed.
Proof.
  intros closed failed. subst closed failed.
  rewrite receive_eof, receive_other_error.
  repeat split.
Qed.

(** C1, as the code has it.  When the read succeeds with fewer bytes than
    the buffer holds, the sentinel is stored just past the last byte read,
    and the loop [i <= length] copies it as well: the value returned is the
    bytes read followed by the sentinel, one byte longer than what was read. *)
Theorem receive_returns_sentinel_too (this : Channel) (port : Z)
    (uninit : nat -> byte) (incoming : Bytes) :
  Z.of_nat (length incoming) < CHANNEL_H_MAX_BUFFER ->
  let r := receive this port (Incoming incoming ec_success) uninit in
  buffer (final_frame r) !! length incoming = Some x00
  /\ returned r = Val (incoming ++ [x00])
  /\ length (incoming ++ [x00]) = S (length incoming).
Proof.
  intros Hlt r. subst r.
  rewrite receive_below_capacity by exact Hlt.
  unfold final_frame, returned. cbn [fst snd buffer].
  split; [apply stored_buffer_sentinel; exact Hlt|].
  split; [reflexivity|].
  rewrite length_app. cbn [length]. lia.
Qed.

Lemma receive_returns_sentinel_too_witness :
  let r := receive (mkChannel 10000) 0 (Incoming hello ec_success) stale in
  buffer (final_frame r) !! length hello = Some x00
  /\ returned r = Val (hello ++ [x00])
  /\ length (hello ++ [x00]) = S (length hello).
Proof.
  apply (receive_returns_sentinel_too (mkChannel 10000) 0 stale hello).
  reflexivity.
Defined.

(** C2, as the code has it.  When the read fills the buffer, the last byte
    of the buffer is replaced by the sentinel and the first 65535 bytes read
    followed by the sentinel are copied; the loop then runs once more and
    reads [buffer[65536]], past the end of the array, so [receive] does not
    get to return that sequence. *)
Theorem receive_full_buffer_overruns (this : Channel) (port : Z)
    (uninit : nat -> byte) (incoming : Bytes) :
  CHANNEL_H_MAX_BUFFER <= Z.of_nat (length incoming) ->
  let r := receive this port (Incoming incoming ec_success) uninit in
  buffer (final_frame r) !! Z.to_nat (CHANNEL_H_MAX_BUFFER - 1) = Some x00
  /\ data (final_frame r)
     = take (Z.to_nat (CHANNEL_H_MAX_BUFFER - 1)) incoming ++ [x00]
  /\ returned r = OutOfBounds CHANNEL_H_MAX_BUFFER.
Proof.
  intros Hge r. subst r.
  rewrite receive_at_capacity by exact Hge.
  unfold final_frame, returned. cbn [fst snd buffer data].
  split; [|split; reflexivity].
  apply list_lookup_middle.
  rewrite length_take. unfold CHANNEL_H_MAX_BUFFER in *. lia.
Qed.

Lemma length_full_payload :
  Z.of_nat (length full_payload) = CHANNEL_H_MAX_BUFFER.
Proof.
  unfold full_payload. rewrite length_app, length_replicate. cbn [length].
  unfold CHANNEL_H_MAX_BUFFER. lia.
Defined.

Lemma receive_full_buffer_overruns_witness :
  let r := receive (mkChannel 10000) 0 (Incoming full_payload ec_success) stale in
  buffer (final_frame r) !! Z.to_nat (CHANNEL_H_MAX_BUFFER - 1) = Some x00
  /\ data (final_frame r)
     = take (Z.to_nat (CHANNEL_H_MAX_BUFFER - 1)) full_payload ++ [x00]
  /\ returned r = OutOfBounds CHANNEL_H_MAX_BUFFER.
Proof.
  apply (receive_full_buffer_overruns (mkChannel 10000) 0 stale full_payload).
  rewrite length_full_payload. lia.
Defined.

(** C9, as the code has it.  After a successful read of fewer bytes than
    the buffer holds, every subscript [receive] applies to [buffer] is
    inside the array; after a read that fills the buffer, the copy loop
    applies the subscript 65536, which is outside. *)
Theorem receive_subscripts (this : Channel) (port : Z)
    (uninit : nat -> byte) (incoming : Bytes) :
  let r := receive this port (Incoming incoming ec_success) uninit in
  (Z.of_nat (length incoming) < CHANNEL_H_MAX_BUFFER ->
   Forall (fun i => 0 <= i < CHANNEL_H_MAX_BUFFER) (touched (final_frame r)))
  /\ (CHANNEL_H_MAX_BUFFER <= Z.of_nat (length incoming) ->
      CHANNEL_H_MAX_BUFFER ∈ touched (final_frame r)
      /\ in_bounds CHANNEL_H_MAX_BUFFER = false).
Proof.
  intros r. subst r. split.
  - intros Hlt. rewrite receive_below_capacity by exact Hlt.
    unfold final_frame. cbn [fst snd touched].
    apply Forall_app. split.
    + repeat constructor; unfold CHANNEL_H_MAX_BUFFER in *; lia.
    + apply Forall_seqZ. intros j Hj. lia.
  - intros Hge. rewrite receive_at_capacity by exact Hge.
    unfold final_frame. cbn [fst snd touched].
    split; [|reflexivity].
    rewrite !elem_of_app. right. right. apply list_elem_of_singleton. reflexivity.
Qed.

Lemma receive_subscripts_witness :
  Forall (fun i => 0 <= i < CHANNEL_H_MAX_BUFFER)
    (touched (final_frame
       (receive (mkChannel 10000) 0 (Incoming hello ec_success) stale)))
  /\ CHANNEL_H_MAX_BUFFER
       ∈ touched (final_frame
            (receive (mkChannel 10000) 0 (Incoming full_payload ec_success) stale))
  /\ in_bounds CHANNEL_H_MAX_BUFFER = false.
Proof.
  split.
  - apply (proj1 (receive_subscripts (mkChannel 10000) 0 stale hello)).
    reflexivity.
  - apply (proj2 (receive_subscripts (mkChannel 10000) 0 stale full_payload)).
    rewrite length_full_payload. lia.
Defined.

(** * Sender and listener together *)

(** C4, as the code has it.  [send("hello", P)] followed by [receiveText(P)]:
    the listener gets the five bytes and returns a string of six characters,
    "hello" followed by the character 0, which is not the string "hello". *)
Theorem round_trip_hello_keeps_sentinel (sender listener : Channel) (P : Z)
    (uninit : nat -> byte) :
  exists r,
    round_trip sender listener "hello" P uninit = Some r
    /\ returned r = Val ("hello" ++ String Ascii.zero "")%string
    /\ returned r <> Val "hello"%string.
Proof.
  unfold round_trip.
  replace (send_text sender "hello" P CHANNEL_H_DEFAULT_HOST 10 1000 (fun _ => Written))
    with ([EvResolve CHANNEL_H_DEFAULT_HOST P; EvConnect; EvWrite hello],
          Returns tt) by reflexivity.
  cbn [written]. eexists. split; [reflexivity|].
  unfold receiveText.
  rewrite receive_below_capacity by reflexivity.
  unfold returned. cbn [snd].
  split; [reflexivity|discriminate].
Qed.

(** * Further properties of [send] *)

Lemma sleeps_app (t1 t2 : trace) : sleeps (t1 ++ t2) = sleeps t1 ++ sleeps t2.
Proof.
  induction t1 as [|e t1 IH]; [reflexivity|].
  destruct e; cbn [app sleeps]; congruence.
Qed.

Lemma written_app (t1 t2 : trace) : written (t1 ++ t2) = written t1 ++ written t2.
Proof.
  induction t1 as [|e t1 IH]; [reflexivity|].
  destruct e; cbn [app written]; congruence.
Qed.

Lemma resolved_app (t1 t2 : trace) :
  resolved (t1 ++ t2) = resolved t1 ++ resolved t2.
Proof.
  induction t1 as [|e t1 IH]; [reflexivity|].
  destruct e; cbn [app resolved]; congruence.
Qed.

(** What one pass through the [try] block leaves on the trace, however it ends. *)
Lemma send_attempt_trace (message : Bytes) (port : Z) (host : string)
    (r : attempt_result) :
  let tried := fst (send_attempt message port host r) in
  attempts_made tried = 1
  /\ resolved tried = [(host, port)]
  /\ Forall (fun payload => payload = message) (written tried)
  /\ sleeps tried = []
  /\ failures_reported tried = []
  /\ diagnostics tried = [].
Proof.
  destruct r; cbn; repeat split; repeat constructor.
Qed.

Section RetryLoopAnyNetwork.
Variables (message : Bytes) (port : Z) (host : string) (attempts delay_ms : Z).
Variable net : network.
Hypothesis attempts_uint : 0 <= attempts < UINT_MODULUS.

(** Whatever the network does, the loop tries at most [remaining] times,
    always the same host and port, and only ever writes [message]. *)
Lemma send_loop_bounded (remaining : nat) :
  forall i : Z,
    let ev := fst (send_loop message port host attempts delay_ms net remaining i) in
    0 <= attempts_made ev <= Z.of_nat remaining
    /\ Forall (fun target => target = (host, port)) (resolved ev)
    /\ Forall (fun payload => payload = message) (written ev)
    /\ Forall (fun d => d = delay_ms) (sleeps ev).
Proof.
  induction remaining as [|r IH]; intros i.
  - cbn. repeat split; try lia; constructor.
  - cbn [send_loop].
    pose proof (send_attempt_trace message port host (net i)) as Htry.
    destruct (send_attempt message port host (net i)) as [tried [what|]].
    + cbn [fst] in Htry. destruct Htry as (Hm & Hr & Hw & Hs & _ & _).
      destruct (i =? uint_sub attempts 1).
      * cbn [fst].
        rewrite !attempts_made_app, !resolved_app, !written_app, !sleeps_app.
        rewrite Hm, Hr, Hs. cbn.
        rewrite !app_nil_r.
        repeat split; try lia; try assumption; repeat constructor.
      * specialize (IH (uint_add i 1)). cbn zeta in IH.
        destruct (send_loop message port host attempts delay_ms net r
                    (uint_add i 1)) as [later c].
        cbn [fst] in IH |- *. destruct IH as (Hm' & Hr' & Hw' & Hs').
        rewrite !attempts_made_app, !resolved_app, !written_app, !sleeps_app.
        rewrite Hm, Hr, Hs.
        cbn [attempts_made resolved written sleeps app].
        rewrite !app_nil_r.
        repeat split; try lia.
        -- constructor; [reflexivity|assumption].
        -- apply Forall_app. split; assumption.
        -- constructor; [reflexivity|assumption].
    + cbn [fst] in Htry |- *. destruct Htry as (Hm & Hr & Hw & Hs & _ & _).
      rewrite Hm, Hr, Hs.
      repeat split; try lia; try assumption; repeat constructor.
Qed.

(** The loop ends the process only through [std::exit(1)], and only after
    every attempt from [i] on has failed. *)
Lemma send_loop_exit_inv (remaining : nat) :
  forall (i status : Z),
    0 <= i ->
    i + Z.of_nat remaining = attempts ->
    snd (send_loop message port host attempts delay_ms net remaining i)
      = Exits status ->
    status = 1 /\ forall j, i <= j < attempts -> fails (net j).
Proof.
  induction remaining as [|r IH]; intros i status Hi Hsum Hexit.
  - discriminate Hexit.
  - cbn [send_loop] in Hexit.
    assert (fails (net i)) as Hfi.
    { destruct (net i); cbn [fails]; try exact I.
      cbn in Hexit. discriminate Hexit. }
    destruct (send_attempt message port host (net i)) as [tried [what|]];
      [|discriminate Hexit].
    rewrite uint_sub_small in Hexit by lia.
    destruct (i =? attempts - 1) eqn:Elast.
    + apply Z.eqb_eq in Elast. cbn [snd] in Hexit.
      injection Hexit as <-. split; [reflexivity|].
      intros j Hj. replace j with i by lia. exact Hfi.
    + apply Z.eqb_neq in Elast.
      rewrite uint_add_small in Hexit by lia.
      specialize (IH (i + 1) status).
      destruct (send_loop message port host attempts delay_ms net r (i + 1))
        as [later c].
      cbn [snd] in Hexit, IH.
      destruct IH as [Hst Hall]; [lia|lia|exact Hexit|].
      split; [exact Hst|].
      intros j Hj. destruct (Z.eq_dec j i) as [->|Hne]; [exact Hfi|].
      apply Hall. lia.
Qed.

(** The loop entered at [i] with attempt [k >= i] the first to get through:
    [k - i] failures, each reported and followed by one pause, then the
    write, and the loop is left by [break]. *)
Lemma send_loop_succeeds (remaining : nat) :
  forall (i k : Z),
    0 <= i <= k ->
    k < attempts ->
    i + Z.of_nat remaining = attempts ->
    net k = Written ->
    (forall j, i <= j < k -> fails (net j)) ->
    exists ev,
      send_loop message port host attempts delay_ms net remaining i
        = (ev, Returns tt)
      /\ attempts_made ev = k - i + 1
      /\ failures_reported ev = seqZ i (k - i)
      /\ sleeps ev = replicate (Z.to_nat (k - i)) delay_ms
      /\ last (written ev) = Some message
      /\ last ev = Some (EvWrite message).
Proof.
  induction remaining as [|r IH]; intros i k Hik Hk Hsum Hok Hfail; [lia|].
  cbn [send_loop].
  destruct (Z.eq_dec i k) as [->|Hne].
  - rewrite Hok. cbn [send_attempt].
    eexists. split; [reflexivity|].
    replace (k - k) with 0 by lia. cbn. repeat split.
  - destruct (send_attempt_fails message port host (net i)) as
      (tried & what & Htry & Hmade & Hrep & _); [apply Hfail; lia|].
    pose proof (send_attempt_trace message port host (net i)) as Htr.
    rewrite Htry in Htr |- *. cbn [fst] in Htr.
    destruct Htr as (_ & _ & _ & Hs & _ & _).
    rewrite uint_sub_small by lia.
    replace (i =? attempts - 1) with false by (symmetry; apply Z.eqb_neq; lia).
    rewrite uint_add_small by lia.
    destruct (IH (i + 1) k) as (later & Hrun & Hm' & Hr' & Hs' & Hw' & Hl');
      [lia|lia|lia|exact Hok|intros j Hj; apply Hfail; lia|].
    rewrite Hrun. eexists. split; [reflexivity|].
    rewrite !attempts_made_app, !failures_reported_app, !sleeps_app, !written_app.
    rewrite Hmade, Hrep, Hs.
    cbn [attempts_made failures_reported sleeps written app].
    rewrite Hm', Hr', Hs'.
    split; [lia|]. split.
    { rewrite (seqZ_cons i (k - i)) by lia. f_equal. f_equal; lia. }
    split.
    { replace (Z.to_nat (k - i)) with (S (Z.to_nat (k - (i + 1)))) by lia.
      reflexivity. }
    split.
    { rewrite last_app, Hw'. reflexivity. }
    rewrite <- app_assoc. rewrite last_app. cbn [app].
    rewrite last_cons, last_cons, Hl'. reflexivity.
Qed.

(** With every attempt from [i] on failing there is one pause between two
    attempts, and none after the last. *)
Lemma send_loop_exhausted_sleeps (remaining : nat) :
  forall i : Z,
    0 <= i ->
    i + Z.of_nat (S remaining) = attempts ->
    (forall j, i <= j < attempts -> fails (net j)) ->
    let ev := fst (send_loop message port host attempts delay_ms net (S remaining) i) in
    sleeps ev = replicate remaining delay_ms
    /\ last ev = Some (EvCerr DiagMaxAttempts).
Proof.
  induction remaining as [|r IH]; intros i Hi Hsum Hfail.
  - pose proof (send_attempt_trace message port host (net i)) as Htr.
    destruct (send_attempt_fails message port host (net i)) as
      (tried & what & Htry & _); [apply Hfail; lia|].
    cbn [send_loop]. rewrite Htry in Htr |- *. cbn [fst] in Htr.
    destruct Htr as (_ & _ & _ & Hs & _ & _).
    rewrite uint_sub_small by lia.
    replace (i =? attempts - 1) with true by (symmetry; apply Z.eqb_eq; lia).
    cbn [fst]. rewrite !sleeps_app, Hs, last_snoc. split; reflexivity.
  - pose proof (send_attempt_trace message port host (net i)) as Htr.
    destruct (send_attempt_fails message port host (net i)) as
      (tried & what & Htry & _); [apply Hfail; lia|].
    specialize (IH (i + 1)). cbn zeta in IH.
    destruct IH as [Hs' Hl']; [lia|lia|intros j Hj; apply Hfail; lia|].
    remember (S r) as r' eqn:Er'.
    cbn [send_loop]. rewrite Htry in Htr |- *. cbn [fst] in Htr.
    destruct Htr as (_ & _ & _ & Hs & _ & _).
    rewrite uint_sub_small by lia.
    replace (i =? attempts - 1) with false by (symmetry; apply Z.eqb_neq; lia).
    rewrite uint_add_small by lia.
    destruct (send_loop message port host attempts delay_ms net r' (i + 1))
      as [later c].
    cbn [fst] in Hs', Hl' |- *.
    rewrite !sleeps_app, Hs. cbn [sleeps app]. rewrite Hs'.
    split; [subst r'; reflexivity|].
    rewrite last_app. cbn [app]. rewrite last_cons, Hl'. reflexivity.
Qed.
End RetryLoopAnyNetwork.

(** X1. A non-empty message and attempt number [k] (counted from 0, below
    [attempts]) the first that gets through: [send] returns to its caller,
    having made [k + 1] attempts, reported the failures 0 .. k-1, paused
    [delay_ms] once after each of them, and written the message last. *)
Theorem send_returns_after_first_success (this : Channel) (message : Bytes)
    (port : Z) (host : string) (attempts delay_ms : Z) (net : network) (k : Z) :
  message <> [] ->
  0 <= k < attempts ->
  attempts < UINT_MODULUS ->
  first_success net k ->
  let r := send this message port host attempts delay_ms net in
  snd r = Returns tt
  /\ attempts_made (fst r) = k + 1
  /\ failures_reported (fst r) = seqZ 0 k
  /\ sleeps (fst r) = replicate (Z.to_nat k) delay_ms
  /\ last (fst r) = Some (EvWrite message).
Proof.
  intros Hne Hk Hatt [Hok Hfail] r. subst r. unfold send.
  destruct message as [|b message]; [contradiction|].
  replace (Z.of_nat (length (b :: message)) =? 0) with false
    by (symmetry; apply Z.eqb_neq; cbn [length]; lia).
  destruct (send_loop_succeeds (b :: message) port host attempts delay_ms net
              ltac:(lia) (Z.to_nat attempts) 0 k)
    as (ev & Hrun & Hm & Hr & Hs & _ & Hl);
    [lia|lia|lia|exact Hok|exact Hfail|].
  rewrite Hrun. cbn [fst snd].
  rewrite Hm, Hr, Hs, Hl.
  replace (k - 0) with k by lia.
  repeat split.
Qed.

Lemma send_returns_after_first_success_witness :
  let net : network :=
    fun i => if i <? 2 then ConnectThrows "Connection refused" else Written in
  let r := send (mkChannel 10000) hello 8080 "localhost" 10 1000 net in
  snd r = Returns tt
  /\ attempts_made (fst r) = 2 + 1
  /\ failures_reported (fst r) = seqZ 0 2
  /\ sleeps (fst r) = replicate (Z.to_nat 2) 1000
  /\ last (fst r) = Some (EvWrite hello).
Proof.
  apply (send_returns_after_first_success (mkChannel 10000) hello 8080
           "localhost" 10 1000
           (fun i => if i <? 2 then ConnectThrows "Connection refused" else Written)
           2).
  - discriminate.
  - lia.
  - unfold UINT_MODULUS. lia.
  - split; [reflexivity|].
    intros j Hj. replace (j <? 2) with true by (symmetry; apply Z.ltb_lt; lia).
    exact I.
Defined.

(** X2. [send] ends the process in one way only: with status 1, for a
    non-empty message, with [attempts >= 1], after every one of the
    [attempts] attempts has failed.  A single attempt that gets through,
    an empty message or [attempts = 0] make it return. *)
Theorem send_exits_only_when_all_failed (this : Channel) (message : Bytes)
    (port : Z) (host : string) (attempts delay_ms : Z) (net : network)
    (status : Z) :
  0 <= attempts < UINT_MODULUS ->
  snd (send this message port host attempts delay_ms net) = Exits status ->
  status = 1
  /\ message <> []
  /\ 1 <= attempts
  /\ forall j, 0 <= j < attempts -> fails (net j).
Proof.
  intros Hatt Hexit. unfold send in Hexit.
  destruct message as [|b message]; [discriminate Hexit|].
  replace (Z.of_nat (length (b :: message)) =? 0) with false in Hexit
    by (symmetry; apply Z.eqb_neq; cbn [length]; lia).
  destruct (Z.to_nat attempts) as [|remaining] eqn:Er; [discriminate Hexit|].
  destruct (send_loop_exit_inv (b :: message) port host attempts delay_ms net
              Hatt (S remaining) 0 status) as [Hst Hall];
    [lia|lia|exact Hexit|].
  repeat split; [exact Hst|discriminate|lia|intros j Hj; apply Hall; lia].
Qed.

Lemma send_exits_only_when_all_failed_witness :
  (1 : Z) = 1
  /\ hello <> []
  /\ 1 <= 3
  /\ forall j, 0 <= j < 3 -> fails (refused j).
Proof.
  apply (send_exits_only_when_all_failed (mkChannel 10000) hello 8080
           "localhost" 3 1000 refused 1).
  - unfold UINT_MODULUS. lia.
  - reflexivity.
Defined.

(** X3. Whatever the network does, [send] makes at most [attempts]
    attempts, resolves nothing but the host and port it was given, writes
    nothing but the whole message, and pauses for nothing but [delay_ms]. *)
Theorem send_stays_within_its_arguments (this : Channel) (message : Bytes)
    (port : Z) (host : string) (attempts delay_ms : Z) (net : network) :
  0 <= attempts ->
  let ev := fst (send this message port host attempts delay_ms net) in
  0 <= attempts_made ev <= attempts
  /\ Forall (fun target => target = (host, port)) (resolved ev)
  /\ Forall (fun payload => payload = message) (written ev)
  /\ Forall (fun d => d = delay_ms) (sleeps ev).
Proof.
  intros Hatt ev. subst ev. unfold send.
  destruct (Z.of_nat (length message) =? 0).
  - cbn. repeat split; try lia; constructor.
  - pose proof (send_loop_bounded message port host attempts delay_ms net
                  (Z.to_nat attempts) 0) as H.
    cbn zeta in H. destruct H as (Hm & Hr & Hw & Hs).
    repeat split; try assumption; lia.
Qed.

Lemma send_stays_within_its_arguments_witness :
  let ev := fst (send (mkChannel 10000) hello 8080 "localhost" 3 1000 refused) in
  0 <= attempts_made ev <= 3
  /\ Forall (fun target => target = ("localhost"%string, 8080)) (resolved ev)
  /\ Forall (fun payload => payload = hello) (written ev)
  /\ Forall (fun d => d = 1000) (sleeps ev).
Proof.
  apply (send_stays_within_its_arguments (mkChannel 10000) hello 8080
           "localhost" 3 1000 refused).
  lia.
Defined.



(** X5. The text overload sends the characters of the string, one byte
    each: every payload it writes has as many bytes as the string has
    characters and reads back as the string, whatever the network does. *)
Theorem send_text_payload_is_the_text (this : Channel) (message : string)
    (port : Z) (host : string) (attempts delay_ms : Z) (net : network) :
  Forall (fun payload =>
            string_of_list_byte payload = message
            /\ length payload = String.length message)
         (written (fst (send_text this message port host attempts delay_ms net))).
Proof.
  unfold send_text, send.
  destruct (Z.of_nat (length (list_byte_of_string message)) =? 0);
    [constructor|].
  pose proof (send_loop_bounded (list_byte_of_string message) port host
                attempts delay_ms net (Z.to_nat attempts) 0) as H.
  cbn zeta in H. destruct H as (_ & _ & Hw & _).
  eapply Forall_impl; [exact Hw|].
  intros payload ->. split.
  - apply string_of_list_byte_of_string.
  - unfold list_byte_of_string. rewrite length_map.
    clear. induction message as [|c s IH]; [reflexivity|].
    cbn. f_equal. exact IH.
Qed.

(** * Further properties of the constructor and of [receive] *)

(** X6. Every [Channel] the constructor builds holds a port in 1..65535;
    the diagnostic is written exactly when the argument is outside that
    range; constructing again from the stored port gives the same object
    and writes nothing. *)
Theorem Channel_new_invariant (port : Z) :
  let this := fst (Channel_new port) in
  1 <= Channel_port this <= 65535
  /\ (snd (Channel_new port) = [] <-> 1 <= port <= 65535)
  /\ Channel_new (Channel_port this) = (this, []).
Proof.
  intros this. subst this.
  pose proof (Channel_new_port_valid port) as Hvalid.
  split; [exact Hvalid|]. split.
  - unfold Channel_new.
    destruct (port <? 1) eqn:E1; destruct (port >? 65535) eqn:E2;
      cbn [orb snd];
      rewrite ?Z.ltb_lt, ?Z.ltb_ge in E1; rewrite Z.gtb_ltb in E2;
      rewrite ?Z.ltb_lt, ?Z.ltb_ge in E2;
      split; intros H; first [discriminate H | lia | reflexivity].
  - destruct (Channel_new port) as [[p] t]. cbn [fst Channel_port] in Hvalid |- *.
    unfold Channel_new.
    replace ((p <? 1) || (p >? 65535)) with false; [reflexivity|].
    symmetry. apply orb_false_iff. rewrite Z.ltb_ge, Z.gtb_ltb, Z.ltb_ge. lia.
Qed.

(** X7. [receive] lets no exception out and never ends the process: it
    returns the empty sequence, or the bytes read followed by the sentinel,
    or it overruns [buffer] at subscript 65536, and the overrun happens only
    after an error-free read that filled the buffer. *)
Theorem receive_never_throws (this : Channel) (port : Z) (env : peer)
    (uninit : nat -> byte) :
  let r := returned (receive this port env uninit) in
  (forall what, r <> Thrown what)
  /\ (forall index, r = OutOfBounds index ->
        index = CHANNEL_H_MAX_BUFFER
        /\ exists incoming,
             env = Incoming incoming ec_success
             /\ CHANNEL_H_MAX_BUFFER <= Z.of_nat (length incoming))
  /\ (forall d, r = Val d ->
        d = []
        \/ exists incoming,
             env = Incoming incoming ec_success
             /\ Z.of_nat (length incoming) < CHANNEL_H_MAX_BUFFER
             /\ d = incoming ++ [x00]).
Proof.
  intros r. subst r.
  destruct env as [what|what|incoming [| |what]].
  - rewrite receive_listen_throws. unfold returned. cbn [snd].
    repeat split; try discriminate. intros d [= <-]. left. reflexivity.
  - rewrite receive_accept_throws. unfold returned. cbn [snd].
    repeat split; try discriminate. intros d [= <-]. left. reflexivity.
  - destruct (Z_lt_ge_dec (Z.of_nat (length incoming)) CHANNEL_H_MAX_BUFFER)
      as [Hlt|Hge].
    + rewrite receive_below_capacity by exact Hlt. unfold returned. cbn [snd].
      repeat split; try discriminate.
      intros d [= <-]. right. exists incoming. repeat split. exact Hlt.
    + rewrite receive_at_capacity by lia. unfold returned. cbn [snd].
      split; [discriminate|]. split; [|discriminate].
      intros index [= <-]. split; [reflexivity|].
      exists incoming. split; [reflexivity|lia].
  - rewrite receive_eof. unfold returned. cbn [snd].
    repeat split; try discriminate. intros d [= <-]. left. reflexivity.
  - rewrite receive_other_error. unfold returned. cbn [snd].
    repeat split; try discriminate. intros d [= <-]. left. reflexivity.
Qed.

(** X8. When the acceptor cannot be set up, or [accept] fails, [receive]
    reports the exception's text, returns the empty sequence, reads nothing
    from the network and never subscripts [buffer]; in the first case it
    does not call [accept] either. *)
Theorem receive_setup_failure (this : Channel) (port : Z)
    (uninit : nat -> byte) (what : string) :
  let unbound := receive this port (ListenThrows what) uninit in
  let unaccepted := receive this port (AcceptThrows what) uninit in
  (returned unbound = Val []
   /\ diagnostics (out (final_frame unbound)) = [DiagException what]
   /\ accepts (out (final_frame unbound)) = 0
   /\ reads (out (final_frame unbound)) = 0
   /\ touched (final_frame unbound) = [])
  /\ (returned unaccepted = Val []
      /\ diagnostics (out (final_frame unaccepted)) = [DiagException what]
      /\ accepts (out (final_frame unaccepted)) = 1
      /\ reads (out (final_frame unaccepted)) = 0
      /\ touched (final_frame unaccepted) = []).
Proof.
  intros unbound unaccepted. subst unbound unaccepted.
  rewrite receive_listen_throws, receive_accept_throws.
  repeat split.
Qed.


(** * Further properties of texts and byte sequences *)

Lemma length_list_byte_of_string (s : string) :
  length (list_byte_of_string s) = String.length s.
Proof.
  unfold list_byte_of_string. rewrite length_map.
  induction s as [|c s IH]; [reflexivity|]. cbn. f_equal. exact IH.
Qed.

Lemma string_of_list_byte_app (a b : list byte) :
  string_of_list_byte (a ++ b)
  = (string_of_list_byte a ++ string_of_list_byte b)%string.
Proof.
  induction a as [|x a IH]; [reflexivity|].
  cbn [app]. unfold string_of_list_byte in *. cbn. f_equal. exact IH.
Qed.

(** With a listener present, the first attempt of the text overload gets
    through and nothing else happens. *)
Lemma send_text_first_attempt (this : Channel) (message : string) (port : Z)
    (host : string) (delay_ms : Z) :
  message <> ""%string ->
  send_text this message port host 10 delay_ms (fun _ => Written)
  = ([EvResolve host port; EvConnect; EvWrite (list_byte_of_string message)],
     Returns tt).
Proof.
  intros Hne. unfold send_text, send.
  rewrite length_list_byte_of_string.
  destruct message as [|c s]; [contradiction|].
  reflexivity.
Qed.



(** The loop of [operator<<], started anywhere inside [data]. *)
Lemma insert_loop_inside (data : Bytes) (remaining : nat) :
  forall (i : Z) (stream : list byte),
    0 <= i ->
    (Z.to_nat i + remaining <= length data)%nat ->
    insert_loop data remaining i stream
    = Some (stream ++ take remaining (drop (Z.to_nat i) data)).
Proof.
  induction remaining as [|k IH]; intros i stream Hi Hk.
  - cbn [insert_loop take]. rewrite app_nil_r. reflexivity.
  - assert (is_Some (data !! Z.to_nat i)) as [b Hb]
      by (apply lookup_lt_is_Some_2; lia).
    cbn [insert_loop]. rewrite Hb.
    rewrite IH by lia.
    rewrite (drop_S _ _ _ Hb). cbn [take].
    replace (Z.to_nat (i + 1)) with (S (Z.to_nat i)) by lia.
    rewrite <- app_assoc. reflexivity.
Qed.


(** * channel.hpp *)

Lemma calls_app (l1 l2 : Template.log) :
  Template.calls (l1 ++ l2) = Template.calls l1 ++ Template.calls l2.
Proof.
  induction l1 as [|e l1 IH]; [reflexivity|].
  destruct e; cbn [app Template.calls]; congruence.
Qed.

Lemma calls_map_Io (t : trace) : Template.calls (map Template.Io t) = t.
Proof. induction t as [|e t IH]; [reflexivity|]. cbn. congruence. Qed.

Lemma failed_attempts_app (l1 l2 : Template.log) :
  Template.failed_attempts (l1 ++ l2)
  = Template.failed_attempts l1 ++ Template.failed_attempts l2.
Proof.
  induction l1 as [|e l1 IH]; [reflexivity|].
  destruct e as [d|e]; cbn [app Template.failed_attempts]; [|assumption].
  destruct d; cbn [app]; congruence.
Qed.

Section TemplateRetryLoop.
Variables (message : string) (port : Z) (host : string) (attempts delay_ms : Z).
Variable net : network.
Hypothesis attempts_uint : 0 <= attempts < UINT_MODULUS.

(** The loop is left in one of two ways: by [break] at the first attempt
    [i'] that gets through, with the message added to [view]; or with the
    counter at [attempts] after every attempt has failed, with [view] as it
    was.  Each failure is followed by one pause. *)
Lemma template_send_loop_cases (remaining : nat) :
  forall (i : Z) (view : list string) (ev : Template.log) (view' : list string)
         (i' : Z),
    0 <= i ->
    i + Z.of_nat remaining = attempts ->
    Template.send_loop message port host attempts delay_ms net remaining i view
      = (ev, view', i') ->
    (i <= i' < attempts
     /\ view' = view ++ [message]
     /\ net i' = Written
     /\ (forall j, i <= j < i' -> fails (net j))
     /\ attempts_made (Template.calls ev) = i' - i + 1
     /\ sleeps (Template.calls ev) = replicate (Z.to_nat (i' - i)) delay_ms
     /\ Template.failed_attempts ev = seqZ i (i' - i)
     /\ last (written (Template.calls ev)) = Some (list_byte_of_string message))
    \/ (i' = attempts
        /\ view' = view
        /\ (forall j, i <= j < attempts -> fails (net j))
        /\ attempts_made (Template.calls ev) = Z.of_nat remaining
        /\ sleeps (Template.calls ev) = replicate remaining delay_ms
        /\ Template.failed_attempts ev = seqZ i (Z.of_nat remaining)).
Proof.
  induction remaining as [|r IH]; intros i view ev view' i' Hi Hsum Hrun.
  - cbn in Hrun. injection Hrun as <- <- <-. right.
    repeat split; try lia.
  - cbn [Template.send_loop] in Hrun.
    destruct (net i) eqn:Eni;
      cbn [send_attempt] in Hrun;
      [| | |injection Hrun as <- <- <-; left;
            replace (i - i) with 0 by lia; cbn;
            repeat split; try lia; exact Eni].
    all: rewrite uint_add_small in Hrun by lia.
    all: destruct (Template.send_loop message port host attempts delay_ms net r
                     (i + 1) view) as [[later v] i''] eqn:Elater.
    all: injection Hrun as <- <- <-.
    all: assert (fails (net i)) as Hfi by (rewrite Eni; exact I).
    all: destruct (IH (i + 1) view later v i'' ltac:(lia) ltac:(lia) Elater)
           as [(Hr1 & Hv & Hok & Hf & Hmade & Hsl & Hfa & Hw)
              |(Hr1 & Hv & Hf & Hmade & Hsl & Hfa)];
         [left|right];
         cbn [Template.calls Template.failed_attempts attempts_made sleeps
              written];
         rewrite Hmade, Hsl, Hfa.
    1,3,5: split; [lia|]; split; [exact Hv|]; split; [exact Hok|]; split;
      [intros j Hj; destruct (Z.eq_dec j i) as [->|Hne];
         [exact Hfi|apply Hf; lia]|];
      split; [lia|]; split;
      [replace (Z.to_nat (i'' - i)) with (S (Z.to_nat (i'' - (i + 1)))) by lia;
         reflexivity|];
      split;
      [rewrite (seqZ_cons i (i'' - i)) by lia; f_equal; f_equal; lia|];
      rewrite ?last_cons, Hw; reflexivity.
    all: split; [exact Hr1|]; split; [exact Hv|]; split;
      [intros j Hj; destruct (Z.eq_dec j i) as [->|Hne];
         [exact Hfi|apply Hf; lia]|];
      split; [lia|]; split; [reflexivity|];
      rewrite (seqZ_cons i (Z.of_nat (S r))) by lia; f_equal; f_equal; lia.
Qed.
End TemplateRetryLoop.

Lemma fails_not_written (r : attempt_result) : fails r -> r <> Written.
Proof. intros Hf ->. exact Hf. Qed.

(** [send] of channel.hpp for a non-empty message, from what the loop did. *)
Lemma template_send_unfold (this : Template.Channel) (message : string)
    (port : Z) (host : string) (attempts delay_ms : Z) (net : network)
    (ev : Template.log) (view' : list string) (i' : Z) :
  message <> ""%string ->
  Template.send_loop message port host attempts delay_ms net
    (Z.to_nat attempts) 0 (Template.view this) = (ev, view', i') ->
  Template.send this message port host attempts delay_ms net
  = if i' =? attempts
    then (Template.mkChannel view' (Template.port this),
          ev ++ [Template.Cerr Template.DiagMaxAttempts], Exits 1)
    else (Template.mkChannel view' (Template.port this), ev, Returns tt).
Proof.
  intros Hne Hrun. unfold Template.send.
  replace (message =? "")%string with false
    by (symmetry; apply String.eqb_neq; exact Hne).
  rewrite Hrun. reflexivity.
Qed.

(** X12. channel.hpp, [send] with a non-empty message: the port of the
    object never changes, and [view] records exactly the sends that got
    through.  Either [send] returns, and then the message was written and
    is the new last element of [view]; or the process ends with status 1,
    and then every attempt failed and [view] is as it was. *)
Theorem template_send_view_records_success (this : Template.Channel)
    (message : string) (port : Z) (host : string) (attempts delay_ms : Z)
    (net : network) :
  message <> ""%string ->
  0 <= attempts < UINT_MODULUS ->
  let r := Template.send this message port host attempts delay_ms net in
  Template.port (fst (fst r)) = Template.port this
  /\ ((snd r = Returns tt
       /\ Template.view (fst (fst r)) = Template.view this ++ [message]
       /\ last (written (Template.calls (snd (fst r))))
          = Some (list_byte_of_string message))
      \/ (snd r = Exits 1
          /\ Template.view (fst (fst r)) = Template.view this
          /\ forall j, 0 <= j < attempts -> fails (net j))).
Proof.
  intros Hne Hatt r. subst r.
  destruct (Template.send_loop message port host attempts delay_ms net
              (Z.to_nat attempts) 0 (Template.view this))
    as [[ev view'] i'] eqn:Hrun.
  rewrite (template_send_unfold this message port host attempts delay_ms net
             ev view' i' Hne Hrun).
  destruct (template_send_loop_cases message port host attempts delay_ms net
              Hatt (Z.to_nat attempts) 0 (Template.view this) ev view' i'
              ltac:(lia) ltac:(lia) Hrun)
    as [(Hr & Hv & _ & _ & _ & _ & _ & Hw)|(Hr & Hv & Hf & _)].
  - replace (i' =? attempts) with false by (symmetry; apply Z.eqb_neq; lia).
    cbn [fst snd Template.port Template.view].
    split; [reflexivity|]. left. repeat split; assumption.
  - replace (i' =? attempts) with true by (symmetry; apply Z.eqb_eq; lia).
    cbn [fst snd Template.port Template.view].
    split; [reflexivity|]. right. repeat split; assumption.
Qed.

Lemma template_send_view_records_success_witness :
  let this := Template.mkChannel ["earlier"%string] 10000 in
  let r := Template.send this "ping" 8080 "localhost" 3 1000 refused in
  Template.port (fst (fst r)) = Template.port this
  /\ ((snd r = Returns tt
       /\ Template.view (fst (fst r)) = Template.view this ++ ["ping"%string]
       /\ last (written (Template.calls (snd (fst r))))
          = Some (list_byte_of_string "ping"))
      \/ (snd r = Exits 1
          /\ Template.view (fst (fst r)) = Template.view this
          /\ forall j, 0 <= j < 3 -> fails (refused j))).
Proof.
  apply (template_send_view_records_success
           (Template.mkChannel ["earlier"%string] 10000) "ping" 8080
           "localhost" 3 1000 refused).
  - discriminate.
  - unfold UINT_MODULUS. lia.
Defined.

(** X13. channel.hpp, [send] with a non-empty message and attempt number
    [k] the first that gets through: [send] returns after [k + 1] attempts,
    having reported the failures 0 .. k-1 and paused [delay_ms] after each,
    and [view] has the message as its new last element. *)
Theorem template_send_returns_after_first_success (this : Template.Channel)
    (message : string) (port : Z) (host : string) (attempts delay_ms : Z)
    (net : network) (k : Z) :
  message <> ""%string ->
  0 <= k < attempts ->
  attempts < UINT_MODULUS ->
  first_success net k ->
  let r := Template.send this message port host attempts delay_ms net in
  snd r = Returns tt
  /\ Template.view (fst (fst r)) = Template.view this ++ [message]
  /\ attempts_made (Template.calls (snd (fst r))) = k + 1
  /\ Template.failed_attempts (snd (fst r)) = seqZ 0 k
  /\ sleeps (Template.calls (snd (fst r))) = replicate (Z.to_nat k) delay_ms.
Proof.
  intros Hne Hk Hatt [Hok Hfail] r. subst r.
  destruct (Template.send_loop message port host attempts delay_ms net
              (Z.to_nat attempts) 0 (Template.view this))
    as [[ev view'] i'] eqn:Hrun.
  rewrite (template_send_unfold this message port host attempts delay_ms net
             ev view' i' Hne Hrun).
  destruct (template_send_loop_cases message port host attempts delay_ms net
              ltac:(lia) (Z.to_nat attempts) 0 (Template.view this) ev view' i'
              ltac:(lia) ltac:(lia) Hrun)
    as [(Hr & Hv & Hok' & Hf & Hm & Hs & Hfa & _)|(_ & _ & Hf & _)].
  - assert (i' = k) as ->.
    { destruct (Z.lt_trichotomy i' k) as [Hlt|[Heq|Hgt]]; [|exact Heq|].
      - exfalso. apply (fails_not_written (net i')); [apply Hfail; lia|exact Hok'].
      - exfalso. apply (fails_not_written (net k)); [apply Hf; lia|exact Hok]. }
    replace (k =? attempts) with false by (symmetry; apply Z.eqb_neq; lia).
    cbn [fst snd Template.view].
    rewrite Hm, Hs, Hfa. replace (k - 0) with k by lia.
    repeat split; try assumption; lia.
  - exfalso. apply (fails_not_written (net k)); [apply Hf; lia|exact Hok].
Qed.

Lemma template_send_returns_after_first_success_witness :
  let net : network :=
    fun i => if i <? 2 then ConnectThrows "Connection refused" else Written in
  let this := Template.mkChannel [] 10000 in
  let r := Template.send this "ping" 8080 "localhost" 10 1000 net in
  snd r = Returns tt
  /\ Template.view (fst (fst r)) = Template.view this ++ ["ping"%string]
  /\ attempts_made (Template.calls (snd (fst r))) = 2 + 1
  /\ Template.failed_attempts (snd (fst r)) = seqZ 0 2
  /\ sleeps (Template.calls (snd (fst r))) = replicate (Z.to_nat 2) 1000.
Proof.
  apply (template_send_returns_after_first_success
           (Template.mkChannel [] 10000) "ping" 8080 "localhost" 10 1000
           (fun i => if i <? 2 then ConnectThrows "Connection refused" else Written)
           2).
  - discriminate.
  - lia.
  - unfold UINT_MODULUS. lia.
  - split; [reflexivity|].
    intros j Hj. replace (j <? 2) with true by (symmetry; apply Z.ltb_lt; lia).
    exact I.
Defined.

(** X14. channel.hpp, [send] with a non-empty message and every attempt
    failing, for any [attempts] from 0 up: the process ends with status 1
    after exactly [attempts] attempts and [attempts] pauses (there is a pause
    after the last failure too), the last line written being the one about
    the maximum; [view] is unchanged.  In particular [attempts = 0] ends the
    process without a single attempt. *)
Theorem template_send_exhaustion_exits (this : Template.Channel)
    (message : string) (port : Z) (host : string) (attempts delay_ms : Z)
    (net : network) :
  message <> ""%string ->
  0 <= attempts < UINT_MODULUS ->
  (forall i, 0 <= i < attempts -> fails (net i)) ->
  let r := Template.send this message port host attempts delay_ms net in
  snd r = Exits 1
  /\ fst (fst r) = this
  /\ attempts_made (Template.calls (snd (fst r))) = attempts
  /\ Template.failed_attempts (snd (fst r)) = seqZ 0 attempts
  /\ sleeps (Template.calls (snd (fst r))) = replicate (Z.to_nat attempts) delay_ms
  /\ last (snd (fst r)) = Some (Template.Cerr Template.DiagMaxAttempts).
Proof.
  intros Hne Hatt Hfail r. subst r.
  destruct (Template.send_loop message port host attempts delay_ms net
              (Z.to_nat attempts) 0 (Template.view this))
    as [[ev view'] i'] eqn:Hrun.
  rewrite (template_send_unfold this message port host attempts delay_ms net
             ev view' i' Hne Hrun).
  destruct (template_send_loop_cases message port host attempts delay_ms net
              Hatt (Z.to_nat attempts) 0 (Template.view this) ev view' i'
              ltac:(lia) ltac:(lia) Hrun)
    as [(Hr & _ & Hok & _)|(Hr & Hv & _ & Hm & Hs & Hfa)].
  - exfalso. apply (fails_not_written (net i')); [apply Hfail; lia|exact Hok].
  - replace (i' =? attempts) with true by (symmetry; apply Z.eqb_eq; lia).
    cbn [fst snd]. subst view'.
    rewrite calls_app, failed_attempts_app, attempts_made_app, sleeps_app.
    cbn [Template.calls Template.failed_attempts attempts_made sleeps].
    rewrite Hm, Hs, Hfa, !app_nil_r, last_snoc, Z.add_0_r.
    destruct this as [v p]. cbn [Template.view Template.port].
    repeat split; try reflexivity; try lia.
    f_equal. lia.
Qed.

Lemma template_send_exhaustion_exits_witness :
  let this := Template.mkChannel ["earlier"%string] 10000 in
  let r := Template.send this "ping" 8080 "localhost" 0 1000 refused in
  snd r = Exits 1
  /\ fst (fst r) = this
  /\ attempts_made (Template.calls (snd (fst r))) = 0
  /\ Template.failed_attempts (snd (fst r)) = seqZ 0 0
  /\ sleeps (Template.calls (snd (fst r))) = replicate (Z.to_nat 0) 1000
  /\ last (snd (fst r)) = Some (Template.Cerr Template.DiagMaxAttempts).
Proof.
  apply (template_send_exhaustion_exits
           (Template.mkChannel ["earlier"%string] 10000) "ping" 8080
           "localhost" 0 1000 refused).
  - discriminate.
  - unfold UINT_MODULUS. lia.
  - intros i _. exact I.
Defined.

(** ** The buffer read as a C string *)

Lemma until_zero_no_zero (l : list byte) : x00 ∉ l -> until_zero l = l.
Proof.
  induction l as [|b l IH]; intros Hnot; [reflexivity|].
  cbn [until_zero]. destruct (Byte.eqb b x00) eqn:E.
  - apply Byte.byte_dec_bl in E. subst b. exfalso. apply Hnot. left.
  - f_equal. apply IH. intros Hin. apply Hnot. right. exact Hin.
Qed.

Lemma until_zero_app_zero (a b : list byte) :
  x00 ∉ a -> until_zero (a ++ x00 :: b) = a.
Proof.
  induction a as [|c a IH]; intros Hnot; [reflexivity|].
  cbn [app until_zero]. destruct (Byte.eqb c x00) eqn:E.
  - apply Byte.byte_dec_bl in E. subst c. exfalso. apply Hnot. left.
  - f_equal. apply IH. intros Hin. apply Hnot. right. exact Hin.
Qed.

Lemma until_zero_bounds (l : list byte) :
  (length (until_zero l) <= length l)%nat /\ x00 ∉ until_zero l.
Proof.
  induction l as [|b l [IHlen IHnot]]; cbn [until_zero length].
  - split; [lia|]. apply not_elem_of_nil.
  - destruct (Byte.eqb b x00) eqn:E; cbn [length].
    + split; [lia|]. apply not_elem_of_nil.
    + split; [lia|]. intros Hin. apply elem_of_cons in Hin as [Heq|Hin].
      * subst b. vm_compute in E. discriminate E.
      * exact (IHnot Hin).
Qed.

(** A zero byte in the array stops the scan inside the array. *)
Lemma c_string_app_zero (p tail : list byte) :
  Template.c_string (p ++ x00 :: tail) = Some (until_zero p).
Proof.
  induction p as [|b p IH]; [reflexivity|].
  cbn [app Template.c_string until_zero].
  destruct (Byte.eqb b x00); [reflexivity|].
  rewrite IH. reflexivity.
Qed.

(** After the two assignments the buffer is the first 65535 bytes read (or
    all of them, if fewer), a zero byte, and whatever follows. *)
Lemma stored_buffer_shape (uninit : nat -> byte) (incoming : Bytes) :
  exists tail,
    stored_buffer uninit incoming
    = take (Z.to_nat (CHANNEL_H_MAX_BUFFER - 1)) incoming ++ x00 :: tail.
Proof.
  pose proof capacity_nat as Hcap.
  pose proof (length_received incoming) as Hn.
  pose proof (length_fresh_buffer uninit) as Hf.
  unfold stored_buffer.
  destruct (Z.of_nat (length (received incoming)) <? CHANNEL_H_MAX_BUFFER) eqn:E.
  - apply Z.ltb_lt in E.
    assert (received incoming = incoming) as Hgot
      by (unfold received; apply take_ge; lia).
    rewrite Hgot in *.
    eexists.
    rewrite insert_take_drop
      by (rewrite length_insert, length_app, length_drop; lia).
    rewrite take_insert_ge by (unfold CHANNEL_H_MAX_BUFFER in *; lia).
    rewrite take_app_length.
    rewrite (take_ge incoming) by (unfold CHANNEL_H_MAX_BUFFER in *; lia).
    reflexivity.
  - apply Z.ltb_ge in E.
    eexists.
    rewrite insert_take_drop
      by (rewrite length_app, length_drop; unfold CHANNEL_H_MAX_BUFFER in *; lia).
    rewrite take_app_le by (unfold CHANNEL_H_MAX_BUFFER in *; lia).
    unfold received at 1. rewrite take_take.
    replace (Z.to_nat (CHANNEL_H_MAX_BUFFER - 1) `min` Z.to_nat CHANNEL_H_MAX_BUFFER)%nat
      with (Z.to_nat (CHANNEL_H_MAX_BUFFER - 1))
      by (unfold CHANNEL_H_MAX_BUFFER; lia).
    reflexivity.
Qed.

Lemma template_max_buffer : Template.MAX_BUFFER = CHANNEL_H_MAX_BUFFER.
Proof. reflexivity. Qed.

(** The array of channel.hpp after the read and the two assignments, as
    [receive] computes it, is the one of channel.cpp. *)
Lemma template_stored_buffer (uninit : nat -> byte) (incoming : Bytes) :
  (let got := take (Z.to_nat Template.MAX_BUFFER) incoming in
   let length := Z.of_nat (length got) in
   let data0 := got ++ drop (Z.to_nat length) (fresh_buffer uninit) in
   let data1 := <[Z.to_nat (Template.MAX_BUFFER - 1) := x00]> data0 in
   if length <? Template.MAX_BUFFER
   then <[Z.to_nat length := x00]> data1
   else data1)
  = stored_buffer uninit incoming.
Proof.
  cbv zeta. rewrite template_max_buffer, !Nat2Z.id.
  unfold stored_buffer, received. reflexivity.
Qed.

(** [receive] of channel.hpp once a peer is connected: the message is the
    C string in the buffer, and [error] decides what is done with it. *)
Lemma template_receive_incoming (this : Template.Channel) (incoming : Bytes)
    (error : error_code) (uninit : nat -> byte) :
  Template.receive this (Incoming incoming error) uninit
  = let message :=
      string_of_list_byte
        (until_zero (take (Z.to_nat (CHANNEL_H_MAX_BUFFER - 1)) incoming)) in
    let calls :=
      [Template.Io (EvListen (port_type_of_int (Template.port this)));
       Template.Io EvAccept; Template.Io (EvReadSome Template.MAX_BUFFER)] in
    match error with
    | ec_eof => (this, calls, Template.FromZero)
    | ec_other what =>
        (this, calls ++ [Template.Cerr (Template.DiagException what)],
         Template.Message message)
    | ec_success =>
        (Template.mkChannel (Template.view this ++ [message]) (Template.port this),
         calls, Template.Message message)
    end.
Proof.
  destruct (stored_buffer_shape uninit incoming) as [tail Hshape].
  pose proof (template_stored_buffer uninit incoming) as Hdata.
  cbv zeta in Hdata.
  unfold Template.receive. cbv zeta.
  rewrite Hdata, Hshape, c_string_app_zero.
  destruct error; reflexivity.
Qed.

Lemma not_elem_of_take_zero (n : nat) (l : list byte) : x00 ∉ l -> x00 ∉ take n l.
Proof.
  intros Hnot Hin. apply Hnot.
  rewrite <- (take_drop n l). apply elem_of_app. left. exact Hin.
Qed.

Lemma length_until_zero_take (incoming : Bytes) :
  Z.of_nat (length (until_zero
                      (take (Z.to_nat (CHANNEL_H_MAX_BUFFER - 1)) incoming)))
  <= CHANNEL_H_MAX_BUFFER - 1.
Proof.
  destruct (until_zero_bounds
              (take (Z.to_nat (CHANNEL_H_MAX_BUFFER - 1)) incoming)) as [Hlen _].
  rewrite length_take in Hlen. unfold CHANNEL_H_MAX_BUFFER in *. lia.
Qed.

(** X15. channel.hpp, [receive]: reading the buffer as a C string never
    leaves the array, whatever arrives and whatever the stack held before,
    because the last element of the array is always set to zero.  A message
    handed to the caller has at most 65535 characters and none of them is
    the character 0. *)
Theorem template_receive_stays_in_array (this : Template.Channel) (env : peer)
    (uninit : nat -> byte) :
  let got := snd (Template.receive this env uninit) in
  got <> Template.ReadPastEnd
  /\ forall message,
       got = Template.Message message ->
       exists text,
         message = string_of_list_byte text
         /\ Z.of_nat (length text) <= Template.MAX_BUFFER - 1
         /\ x00 ∉ text.
Proof.
  intros got. subst got.
  destruct env as [what|what|incoming error].
  - cbn [Template.receive snd]. split; [discriminate|].
    intros message [= <-]. exists []. repeat split.
    + unfold Template.MAX_BUFFER. cbn [length]. lia.
    + apply not_elem_of_nil.
  - cbn [Template.receive snd]. split; [discriminate|].
    intros message [= <-]. exists []. repeat split.
    + unfold Template.MAX_BUFFER. cbn [length]. lia.
    + apply not_elem_of_nil.
  - rewrite template_receive_incoming. cbv zeta.
    pose proof (length_until_zero_take incoming) as Hlen.
    destruct (until_zero_bounds
                (take (Z.to_nat (CHANNEL_H_MAX_BUFFER - 1)) incoming)) as [_ Hnot].
    rewrite template_max_buffer.
    destruct error; cbn [snd]; (split; [discriminate|]); intros message Hm;
      try discriminate Hm; injection Hm as <-;
      eexists; (split; [reflexivity|]); split; assumption.
Qed.

(** X16. channel.hpp, [receive] after an error-free read: the message is
    what was read up to the first zero byte.  Bytes without a zero and
    fewer than 65536 of them come back whole and are added to [view]; from
    65536 bytes or more without a zero only the first 65535 come back; and
    bytes with a zero among the first 65536 come back cut before it. *)
Theorem template_receive_cuts_at_zero (this : Template.Channel)
    (incoming : Bytes) (uninit : nat -> byte) :
  let r := Template.receive this (Incoming incoming ec_success) uninit in
  (x00 ∉ incoming ->
   Z.of_nat (length incoming) < Template.MAX_BUFFER ->
   snd r = Template.Message (string_of_list_byte incoming)
   /\ Template.view (fst (fst r))
      = Template.view this ++ [string_of_list_byte incoming])
  /\ (x00 ∉ incoming ->
      Template.MAX_BUFFER <= Z.of_nat (length incoming) ->
      snd r = Template.Message
                (string_of_list_byte
                   (take (Z.to_nat (Template.MAX_BUFFER - 1)) incoming)))
  /\ (forall a b,
        incoming = a ++ x00 :: b ->
        x00 ∉ a ->
        Z.of_nat (length a) < Template.MAX_BUFFER ->
        snd r = Template.Message (string_of_list_byte a)).
Proof.
  intros r. subst r.
  rewrite template_receive_incoming. cbv zeta. cbn [fst snd Template.view].
  rewrite !template_max_buffer.
  split; [|split].
  - intros Hnot Hlen.
    rewrite (take_ge incoming) by (unfold CHANNEL_H_MAX_BUFFER in *; lia).
    rewrite until_zero_no_zero by exact Hnot. split; reflexivity.
  - intros Hnot Hlen.
    rewrite until_zero_no_zero by (apply not_elem_of_take_zero; exact Hnot).
    reflexivity.
  - intros a b -> Hnot Hlen.
    destruct (Z.eq_dec (Z.of_nat (length a)) (CHANNEL_H_MAX_BUFFER - 1)) as [Heq|Hne].
    + rewrite take_app_length' by lia.
      rewrite until_zero_no_zero by exact Hnot. reflexivity.
    + replace (Z.to_nat (CHANNEL_H_MAX_BUFFER - 1))
        with (length a + S (Z.to_nat (CHANNEL_H_MAX_BUFFER - 1) - S (length a)))%nat
        by lia.
      rewrite take_app_add. cbn [take].
      rewrite until_zero_app_zero by exact Hnot. reflexivity.
Qed.

Lemma template_receive_cuts_at_zero_witness :
  snd (Template.receive (Template.mkChannel [] 10000)
         (Incoming hello ec_success) stale)
    = Template.Message (string_of_list_byte hello)
  /\ snd (Template.receive (Template.mkChannel [] 10000)
            (Incoming (hello ++ x00 :: hello) ec_success) stale)
     = Template.Message (string_of_list_byte hello).
Proof.
  assert (x00 ∉ hello) as Hnot.
  { intros H. unfold hello in H. cbn in H.
    repeat (apply elem_of_cons in H as [H|H]; [discriminate H|]).
    apply elem_of_nil in H. exact H. }
  split.
  - apply (proj1 (template_receive_cuts_at_zero (Template.mkChannel [] 10000)
                    hello stale)); [exact Hnot|reflexivity].
  - apply (proj2 (proj2 (template_receive_cuts_at_zero
                           (Template.mkChannel [] 10000)
                           (hello ++ x00 :: hello) stale)) hello hello);
      [reflexivity|exact Hnot|reflexivity].
Defined.

(** X17. channel.hpp, [receive] when something goes wrong: after a read
    error other than end of file the caller still gets the text found in
    the buffer, exactly the one an error-free read would have given, but it
    is not added to [view] and the error is reported; when the acceptor
    cannot be set up or [accept] fails the caller gets the empty text.  The
    object is unchanged in all three cases. *)
Theorem template_receive_error_keeps_text (this : Template.Channel)
    (incoming : Bytes) (uninit : nat -> byte) (what : string) :
  let failed := Template.receive this (Incoming incoming (ec_other what)) uninit in
  let fine := Template.receive this (Incoming incoming ec_success) uninit in
  let unbound := Template.receive this (ListenThrows what) uninit in
  let unaccepted := Template.receive this (AcceptThrows what) uninit in
  snd failed = snd fine
  /\ fst (fst failed) = this
  /\ last (snd (fst failed)) = Some (Template.Cerr (Template.DiagException what))
  /\ snd unbound = Template.Message ""
  /\ fst (fst unbound) = this
  /\ snd unaccepted = Template.Message ""
  /\ fst (fst unaccepted) = this.
Proof.
  intros failed fine unbound unaccepted. subst failed fine unbound unaccepted.
  rewrite !template_receive_incoming. cbv zeta.
  cbn [Template.receive fst snd].
  repeat split.
Qed.


